(** * Convoy physics of Simutrans (convoy.h): summaries, unit conversions,
      the lazy caching layer and the force lookup.

    The development follows the header: machine integers first, then the
    number type of the physics, the four summaries, the base class
    [convoy_t] and the caching class [lazy_convoy_t] with its live-convoy
    descendant [existing_convoy_t].  The inline methods of the way class
    (weg.h) and a helper of the script interface (api_obj_desc.cc)
    follow. *)

From Stdlib Require Import ZArith QArith Qabs Qround Qfield Lqa List Lia Bool.
From Stdlib Require Import Permutation.
Import ListNotations.

Local Open Scope Z_scope.

(** ** Machine integers

    [uint32] and [sint32] values are integers of [Z]; every arithmetic
    operation of the source is followed by the wrap-around of its type. *)

Module Int.

Definition u32 (x : Z) : Z := x mod 2 ^ 32.

Definition s32 (x : Z) : Z := (x + 2 ^ 31) mod 2 ^ 32 - 2 ^ 31.

Definition is_uint8 (x : Z) : Prop := 0 <= x < 2 ^ 8.
Definition is_uint32 (x : Z) : Prop := 0 <= x < 2 ^ 32.
Definition is_sint32 (x : Z) : Prop := - 2 ^ 31 <= x < 2 ^ 31.

End Int.

Import Int.

(** ** Constants of the header *)

Definition GEAR_FACTOR : Z := 64.
Definition DT_TIME_FACTOR : Z := 64.
Definition WEIGHT_UNLIMITED : Z := 2 ^ 31 - 1.
Definition KMH_SPEED_UNLIMITED : Z := 300000.
Definition KMH_MIN : Z := 4.

(** ** Vehicle descriptors

    [vehikel_besch_t] is declared in besch/vehikel_besch.h, outside the
    header; [add_vehicle] reads three getters of it, which are the fields
    here: length in 1/OBJECT_OFFSET_STEPS of a tile, own weight in tonnes,
    top speed in km/h. *)

Record vehikel_besch_t : Type := mk_vehikel_besch {
  get_length : Z;
  get_gewicht : Z;
  get_geschw : Z
}.

(** ** vehicle_summary_t *)

Record vehicle_summary_t : Type := mk_vehicle_summary {
  vs_length : Z;      (* uint32 *)
  vs_tiles : Z;       (* uint32 *)
  vs_weight : Z;      (* sint32 *)
  vs_max_speed : Z    (* sint32 *)
}.

Module vehicle_summary.

Definition clear (_ : vehicle_summary_t) : vehicle_summary_t :=
  {| vs_length := 0;
     vs_tiles := 0;
     vs_weight := 0;
     vs_max_speed := KMH_SPEED_UNLIMITED |}.

Definition add_vehicle (s : vehicle_summary_t) (b : vehikel_besch_t)
  : vehicle_summary_t :=
  {| vs_length := u32 (vs_length s + get_length b);
     vs_tiles := vs_tiles s;
     vs_weight := s32 (vs_weight s + get_gewicht b);
     vs_max_speed := Z.min (vs_max_speed s) (get_geschw b) |}.

(** [OBJECT_OFFSET_STEPS] is a macro of another header: a parameter. *)
Definition update_summary (OBJECT_OFFSET_STEPS : Z)
    (s : vehicle_summary_t) (length_of_last_vehicle : Z)
  : vehicle_summary_t :=
  {| vs_length := vs_length s;
     vs_tiles :=
       u32 (vs_length s
            + (Z.max 8 length_of_last_vehicle - length_of_last_vehicle)
            + OBJECT_OFFSET_STEPS - 1)
       / OBJECT_OFFSET_STEPS;
     vs_weight := s32 (vs_weight s * 1000);
     vs_max_speed := vs_max_speed s |}.

(** The summary of a vehicle list: [clear], then one [add_vehicle] per
    vehicle, in the order given. *)
Definition add_all (s : vehicle_summary_t) (l : list vehikel_besch_t)
  : vehicle_summary_t :=
  fold_left add_vehicle l (clear s).

Definition total_length (l : list vehikel_besch_t) : Z :=
  fold_right Z.add 0 (map get_length l).

Definition total_gewicht (l : list vehikel_besch_t) : Z :=
  fold_right Z.add 0 (map get_gewicht l).

(** [is_minimum m xs]: [m] is the least element of [xs]. *)
Definition is_minimum (m : Z) (xs : list Z) : Prop :=
  In m xs /\ forall x, In x xs -> m <= x.

(** The speed cap the code computes: the least of [KMH_SPEED_UNLIMITED]
    and the vehicles' top speeds. *)
Definition speed_cap (l : list vehikel_besch_t) : Z :=
  fold_right Z.min KMH_SPEED_UNLIMITED (map get_geschw l).

End vehicle_summary.

(** ** The number type of the physics *)

Module float32e8.

(** Modelled from the spec: the class [float32e8_t], declared in
    utils/float32e8_t.h and not in convoy.h.  The spec calls
    it "an exact, deterministic rational/fixed-precision number type";
    a value of the type is taken as the rational number it denotes.  The
    operations of this module do not round; the unit conversions take
    their operators as parameters (see [float32e8_ops]). *)
Definition t : Type := Q.

(** Modelled from the spec: the conversion from an integer, exact. *)
Definition of_int (n : Z) : t := inject_Z n.

(** Modelled from the spec: the constructor from two [uint32], the
    quotient of the first by the second (CF_ROAD, 252 over 100, is the
    0.7 / 2 * 6 * 1.2 of the header's comment). *)
Definition of_ratio (n d : Z) : t := (inject_Z n / inject_Z d)%Q.


(** Modelled from the spec: the magnitude. *)
Definition abs (x : t) : t := Qabs x.

(** Modelled from the spec: the cast to [sint32], the "truncation" that
    follows the added half: the fraction is dropped. *)
Definition to_sint32 (x : t) : Z := Z.quot (Qnum x) (Zpos (Qden x)).

(** Modelled from the spec: the lesser of two values. *)
Definition min (x y : t) : t := if Qle_bool x y then x else y.

End float32e8.

Definition float32e8_t : Type := float32e8.t.

(** CF_*: constants related to air resistance. *)
Definition CF_TRACK : float32e8_t := float32e8.of_int 13.
Definition CF_MAGLEV : float32e8_t := float32e8.of_int 10.
Definition CF_ROAD : float32e8_t := float32e8.of_ratio 252 100.
Definition CF_WATER : float32e8_t := float32e8.of_int 25.
Definition CF_AIR : float32e8_t := float32e8.of_int 1.

(** FR_*: constants related to rolling resistance. *)
Definition FR_MAGLEV : float32e8_t := float32e8.of_ratio 15 10000.
Definition FR_TRACK : float32e8_t := float32e8.of_ratio 51 10000.
Definition FR_ROAD : float32e8_t := float32e8.of_ratio 15 1000.
Definition FR_WATER : float32e8_t := float32e8.of_ratio 1 1000.
Definition FR_AIR : float32e8_t := float32e8.of_ratio 1 1000.

(** Conversion between km/h and m/s. *)
Definition kmh2ms : float32e8_t := float32e8.of_ratio 10 36.
Definition ms2kmh : float32e8_t := float32e8.of_ratio 36 10.

(** ** The arithmetic of the number type in the conversions

    The operators of [float32e8_t] that the conversions call are defined
    with the class, outside convoy.h: they are parameters.  A value is
    the rational it denotes; an operation returns the value the class
    stores for its result, which need not be the exact one. *)

Class float32e8_ops : Type := {
  fl_ratio : Z -> Z -> float32e8_t;        (* float32e8_t(uint32, uint32) *)
  fl_of_sint32 : Z -> float32e8_t;         (* a sint32 operand *)
  fl_mul : float32e8_t -> float32e8_t -> float32e8_t;
  fl_add : float32e8_t -> float32e8_t -> float32e8_t;
  fl_half : float32e8_t;                   (* float32e8_t::half *)
  fl_to_sint32 : float32e8_t -> Z          (* the cast (sint32) *)
}.


Module float32e8_accuracy.

(** Modelled from the spec: the precision of the type, "bounded
    precision and deterministic rounding".  A mantissa of 32 bits keeps
    a result to within 2^-31 of its magnitude; the bound assumed here is
    twice that. *)
Definition eps : Q := 1 # 1073741824.

(** [r] is [exact] up to the relative error [eps]. *)
Definition near (exact r : Q) : Prop :=
  (Qabs (r - exact) <= eps * Qabs exact)%Q.

(** Modelled from the spec: the magnitudes the type holds without
    overflow or underflow.  The exponent has eight bits; the bounds
    assumed here are 2^-64 and 2^64. *)
Definition in_range (x : Q) : Prop :=
  (x == 0)%Q
  \/ ((1 # 18446744073709551616) <= Qabs x <= 18446744073709551616)%Q.

(** Modelled from the spec: what the conversions need of the
    operations.  A quotient of two uint32, and a product or a sum whose
    exact value is in range, are rounded to a near value; a sint32 and
    one half are held exactly; the cast drops the fraction of a value
    whose integer part is a sint32. *)
Record accurate (ops : float32e8_ops) : Prop := mk_accurate {
  ratio_near : forall n d : Z,
    0 < n < 2 ^ 32 -> 0 < d < 2 ^ 32 ->
    near (inject_Z n / inject_Z d) (fl_ratio n d);
  of_sint32_exact : forall n : Z,
    is_sint32 n -> (fl_of_sint32 n == inject_Z n)%Q;
  mul_near : forall x y : Q,
    in_range (x * y) -> near (x * y) (fl_mul x y);
  add_near : forall x y : Q,
    in_range (x + y) -> near (x + y) (fl_add x y);
  half_exact : (fl_half == 1 # 2)%Q;
  to_sint32_trunc : forall x : Q,
    is_sint32 (float32e8.to_sint32 x) ->
    fl_to_sint32 x = float32e8.to_sint32 x
}.

(** Modelled from the spec: a value held with bounded precision.  The
    magnitude is cut, towards zero, to a multiple of 2^e, where e leaves
    it a mantissa of 31 or 32 bits. *)
Definition cut (x : Q) : Q :=
  let e := Z.log2 (Z.abs (Qnum x)) - Z.log2 (Zpos (Qden x)) - 31 in
  let a := Z.max 0 (- e) in
  let b := Z.max 0 e in
  (inject_Z (Z.quot (Qnum x * 2 ^ a) (Zpos (Qden x) * 2 ^ b) * 2 ^ b)
   / inject_Z (2 ^ a))%Q.

(** Modelled from the spec: operations of bounded precision, which cut
    every quotient, product and sum. *)
Definition cut_ops : float32e8_ops :=
  {| fl_ratio := fun n d => cut (inject_Z n / inject_Z d);
     fl_of_sint32 := inject_Z;
     fl_mul := fun x y => cut (x * y);
     fl_add := fun x y => cut (x + y);
     fl_half := 1 # 2;
     fl_to_sint32 := float32e8.to_sint32 |}.

(** Operations whose every quotient, product and sum is low by the whole
    of [eps]. *)
Definition low_ops : float32e8_ops :=
  {| fl_ratio := fun n d => ((1 - eps) * (inject_Z n / inject_Z d))%Q;
     fl_of_sint32 := inject_Z;
     fl_mul := fun x y => ((1 - eps) * (x * y))%Q;
     fl_add := fun x y => ((1 - eps) * (x + y))%Q;
     fl_half := 1 # 2;
     fl_to_sint32 := float32e8.to_sint32 |}.

End float32e8_accuracy.

(** ** Conversion between simutrans speed and m/s, and between yards and
    meters.  [VEHICLE_SPEED_FACTOR] is a macro of another header. *)

Section Conversions.

Context {ops : float32e8_ops}.

Variable VEHICLE_SPEED_FACTOR : Z.

Definition simspeed2ms : float32e8_t :=
  fl_ratio (u32 (10 * VEHICLE_SPEED_FACTOR)) (u32 (36 * 1024)).

Definition ms2simspeed : float32e8_t :=
  fl_ratio (u32 (36 * 1024)) (u32 (10 * VEHICLE_SPEED_FACTOR)).

Definition speed_to_v (speed : Z) : float32e8_t :=
  fl_mul simspeed2ms (fl_of_sint32 speed).

Definition v_to_speed (v : float32e8_t) : Z :=
  fl_to_sint32 (fl_add (fl_mul ms2simspeed v) fl_half).

Definition yards2m : float32e8_t :=
  fl_ratio (u32 (10 * VEHICLE_SPEED_FACTOR))
           (u32 (36 * 1024 * DT_TIME_FACTOR)).

Definition m2yards : float32e8_t :=
  fl_ratio (u32 (36 * 1024 * DT_TIME_FACTOR))
           (u32 (10 * VEHICLE_SPEED_FACTOR)).

Definition yards_to_x (yards : Z) : float32e8_t :=
  fl_mul yards2m (fl_of_sint32 yards).

Definition x_to_yards (x : float32e8_t) : Z :=
  fl_to_sint32 (fl_add (fl_mul m2yards x) fl_half).

End Conversions.

(** ** Way types

    [waytype_t] is an enumeration of simtypes.h.  The constructors are the
    enumerators convoy.h and wayobj.h name; [other_wt] stands for every
    remaining one, which the switch of [set_by_waytype] sends to its default
    branch together with [road_wt] and [invalid_wt]. *)

Inductive waytype_t : Type :=
| invalid_wt
| road_wt
| track_wt
| water_wt
| overheadlines_wt
| monorail_wt
| maglev_wt
| tram_wt
| narrowgauge_wt
| air_wt
| other_wt.

(** ** adverse_summary_t *)

Record adverse_summary_t : Type := mk_adverse_summary {
  cf : float32e8_t;
  fr : float32e8_t;
  br : float32e8_t;
  as_max_speed : Z
}.

Module adverse_summary.

Definition clear (a : adverse_summary_t) : adverse_summary_t :=
  {| cf := float32e8.of_int 0;
     fr := float32e8.of_int 0;
     br := br a;
     as_max_speed := KMH_SPEED_UNLIMITED |}.

Definition with_coefficients (a : adverse_summary_t)
    (c f b : float32e8_t) : adverse_summary_t :=
  {| cf := c; fr := f; br := b; as_max_speed := as_max_speed a |}.

Definition set_by_waytype (a : adverse_summary_t) (waytype : waytype_t)
  : adverse_summary_t :=
  match waytype with
  | air_wt =>
      with_coefficients a CF_AIR FR_AIR (float32e8.of_ratio 2 1)
  | water_wt =>
      with_coefficients a CF_WATER FR_WATER (float32e8.of_ratio 1 10)
  | track_wt | narrowgauge_wt | overheadlines_wt =>
      with_coefficients a CF_TRACK FR_TRACK (float32e8.of_ratio 1 2)
  | tram_wt | monorail_wt =>
      with_coefficients a CF_TRACK FR_TRACK (float32e8.of_ratio 1 1)
  | maglev_wt =>
      with_coefficients a CF_MAGLEV FR_MAGLEV (float32e8.of_ratio 12 10)
  | _ =>
      with_coefficients a CF_ROAD FR_ROAD (float32e8.of_ratio 1 1)
  end.

End adverse_summary.

(** ** freight_summary_t and weight_summary_t *)

Record freight_summary_t : Type := mk_freight_summary {
  min_freight_weight : Z;
  max_freight_weight : Z
}.

Record weight_summary_t : Type := mk_weight_summary {
  ws_weight : Z;
  weight_cos : float32e8_t;
  weight_sin : float32e8_t
}.

Module freight_summary.

Definition clear (_ : freight_summary_t) : freight_summary_t :=
  {| min_freight_weight := 0; max_freight_weight := 0 |}.

End freight_summary.

Module weight_summary.

Definition clear (_ : weight_summary_t) : weight_summary_t :=
  {| ws_weight := 0;
     weight_cos := float32e8.of_int 0;
     weight_sin := float32e8.of_int 0 |}.

End weight_summary.

(** ** Cached details and their validity bits *)

Inductive convoy_detail_e : Type :=
| cd_vehicle_summary
| cd_adverse_summary
| cd_freight_summary
| cd_weight_summary
| cd_starting_force
| cd_continuous_power.

(** The enumerator values. *)
Definition cd (d : convoy_detail_e) : Z :=
  match d with
  | cd_vehicle_summary => 0x01
  | cd_adverse_summary => 0x02
  | cd_freight_summary => 0x04
  | cd_weight_summary => 0x08
  | cd_starting_force => 0x10
  | cd_continuous_power => 0x20
  end.

(** Position of the single bit of [cd d]. *)
Definition cd_bit (d : convoy_detail_e) : Z := Z.log2 (cd d).

(** ** Methods as state transformers

    A method of an object of type [S] maps the object to its result and
    the updated object.  The third component is instrumentation: the
    update hooks the call has invoked, in order, each named by the detail
    it recomputes (the call counter of the hooks). *)

Module Method.

Definition M (S A : Type) : Type := S -> A * S * list convoy_detail_e.

Definition ret {S A : Type} (a : A) : M S A := fun s => (a, s, []).

Definition bind {S A B : Type} (m : M S A) (f : A -> M S B) : M S B :=
  fun s =>
    let '(a, s1, l1) := m s in
    let '(b, s2, l2) := f a s1 in
    (b, s2, l1 ++ l2).

Definition gets {S A : Type} (f : S -> A) : M S A := fun s => (f s, s, []).

Definition modify {S : Type} (f : S -> S) : M S unit :=
  fun s => (tt, f s, []).

(** Invocation of the update hook of detail [d], which rewrites a part of
    the object. *)
Definition hook {S : Type} (d : convoy_detail_e) (f : S -> S) : M S unit :=
  fun s => (tt, f s, [d]).

(** A method of a sub-object run on the object that contains it. *)
Definition lift {S T A : Type} (get : T -> S) (set : T -> S -> T)
    (m : M S A) : M T A :=
  fun t => let '(a, s, l) := m (get t) in (a, set t s, l).

Definition result {S A : Type} (r : A * S * list convoy_detail_e) : A :=
  fst (fst r).
Definition object {S A : Type} (r : A * S * list convoy_detail_e) : S :=
  snd (fst r).
Definition invoked {S A : Type} (r : A * S * list convoy_detail_e)
  : list convoy_detail_e := snd r.

End Method.

Import Method.

Declare Scope method_scope.
Delimit Scope method_scope with method.
Notation "x <- m ;; k" := (bind m (fun x => k))
  (at level 61, m at next level, right associativity) : method_scope.
Notation "m ;; k" := (bind m (fun _ => k))
  (at level 61, right associativity) : method_scope.
Local Open Scope method_scope.

(** ** The virtual methods descendants supply

    [convoy_curves] are the pure virtual lookups of [convoy_t]; the update
    hooks of [lazy_convoy_t] receive a summary by reference and rewrite
    it. *)

Class convoy_curves : Type := {
  get_brake_summary : Z -> Z;
  get_force_summary : Z -> Z;
  get_power_summary : Z -> Z;
  get_current_friction : Z
}.

Class lazy_hooks : Type := {
  update_vehicle_summary : vehicle_summary_t -> vehicle_summary_t;
  update_adverse_summary : adverse_summary_t -> adverse_summary_t;
  update_freight_summary : freight_summary_t -> freight_summary_t
}.

(** The bodies [lazy_convoy_t] itself gives the hooks: they leave the
    summary as it is. *)
Definition lazy_default_hooks : lazy_hooks :=
  {| update_vehicle_summary := fun vehicle => vehicle;
     update_adverse_summary := fun adverse => adverse;
     update_freight_summary := fun freight => freight |}.

(** ** convoy_t *)

Module convoy.

Section Base.

Context {curves : convoy_curves}.
Context {S : Type}.

(** Targets of the virtual calls on the object at hand. *)
Variable get_vehicle_summary : M S vehicle_summary_t.
Variable get_starting_force : M S Z.

Definition get_braking_force (speed : Z) : Z :=
  s32 (get_brake_summary speed * 1000).

Definition get_starting_force_base : Z :=
  s32 (get_force_summary 0 * 1000).

Definition get_continuous_power_base : M S Z :=
  vehicle <- get_vehicle_summary ;;
  ret (s32 (get_power_summary (vs_max_speed vehicle) * 1000)).

(** Get force in N according to current speed in m/s. *)
Definition get_force (speed : float32e8_t) : M S Z :=
  let v := float32e8.to_sint32 (float32e8.abs speed) in
  if v =? 0 then get_starting_force
  else ret (s32 (get_force_summary v * 1000)).

(** Get force in N that holds the given speed v or maximum available
    force, what ever is lesser. *)
Definition calc_speed_holding_force (adverse : adverse_summary_t)
    (v Frs : float32e8_t) : M S float32e8_t :=
  force <- get_force v ;;
  ret (float32e8.min (float32e8.of_int force)
                     (cf adverse * v * v + Frs)%Q).

End Base.

End convoy.

(** ** lazy_convoy_t *)

Record lazy_convoy_t : Type := mk_lazy_convoy {
  vehicle : vehicle_summary_t;
  adverse : adverse_summary_t;
  freight : freight_summary_t;
  starting_force : Z;
  continuous_power : Z;
  is_valid : Z
}.

(** ** The engine operations of convoy_t

    [calc_max_speed], [calc_max_weight], [calc_max_starting_weight],
    [calc_min_braking_distance] (in meters, and in steps) and [calc_move]
    are declared in the header and defined in convoy.cc, outside the
    header; the queries of [lazy_convoy_t] delegate to them, whatever
    their bodies are.  They run on the object, whose virtual methods they
    call.  [calc_move] returns the new [akt_speed] and [sp_soll]. *)

Class convoy_engine : Type := {
  convoy_calc_max_speed : weight_summary_t -> M lazy_convoy_t Z;
  convoy_calc_max_weight : Z -> M lazy_convoy_t Z;
  convoy_calc_max_starting_weight : Z -> M lazy_convoy_t Z;
  convoy_calc_min_braking_distance :
    weight_summary_t -> float32e8_t -> M lazy_convoy_t Z;
  convoy_calc_min_braking_distance_steps :
    float32e8_t -> weight_summary_t -> Z -> M lazy_convoy_t Z;
  convoy_calc_move :
    Z -> float32e8_t -> weight_summary_t -> Z -> Z -> Z -> Z -> Z -> Z ->
    M lazy_convoy_t (Z * Z)
}.

Module lazy_convoy.

Definition set_vehicle (f : vehicle_summary_t -> vehicle_summary_t)
    (c : lazy_convoy_t) : lazy_convoy_t :=
  {| vehicle := f (vehicle c); adverse := adverse c; freight := freight c;
     starting_force := starting_force c;
     continuous_power := continuous_power c; is_valid := is_valid c |}.

Definition set_adverse (f : adverse_summary_t -> adverse_summary_t)
    (c : lazy_convoy_t) : lazy_convoy_t :=
  {| vehicle := vehicle c; adverse := f (adverse c); freight := freight c;
     starting_force := starting_force c;
     continuous_power := continuous_power c; is_valid := is_valid c |}.

Definition set_freight (f : freight_summary_t -> freight_summary_t)
    (c : lazy_convoy_t) : lazy_convoy_t :=
  {| vehicle := vehicle c; adverse := adverse c; freight := f (freight c);
     starting_force := starting_force c;
     continuous_power := continuous_power c; is_valid := is_valid c |}.

Definition set_starting_force (x : Z) (c : lazy_convoy_t) : lazy_convoy_t :=
  {| vehicle := vehicle c; adverse := adverse c; freight := freight c;
     starting_force := x;
     continuous_power := continuous_power c; is_valid := is_valid c |}.

Definition set_continuous_power (x : Z) (c : lazy_convoy_t)
  : lazy_convoy_t :=
  {| vehicle := vehicle c; adverse := adverse c; freight := freight c;
     starting_force := starting_force c;
     continuous_power := x; is_valid := is_valid c |}.

Definition set_is_valid (f : Z -> Z) (c : lazy_convoy_t) : lazy_convoy_t :=
  {| vehicle := vehicle c; adverse := adverse c; freight := freight c;
     starting_force := starting_force c;
     continuous_power := continuous_power c; is_valid := f (is_valid c) |}.

(** [is_valid & d] as a truth value. *)
Definition valid (c : lazy_convoy_t) (d : convoy_detail_e) : bool :=
  negb (Z.land (is_valid c) (cd d) =? 0).

(** [is_valid |= d] *)
Definition mark_valid (d : convoy_detail_e) : M lazy_convoy_t unit :=
  modify (set_is_valid (fun bits => Z.lor bits (cd d))).

Section Methods.

Context {curves : convoy_curves}.
Context {hooks : lazy_hooks}.
Context {engine : convoy_engine}.

Definition invalidate_vehicle_summary (c : lazy_convoy_t) : lazy_convoy_t :=
  set_is_valid
    (fun bits =>
       Z.land bits
         (Z.lnot (Z.lor (Z.lor (Z.lor (Z.lor (cd cd_vehicle_summary)
                                             (cd cd_adverse_summary))
                                      (cd cd_weight_summary))
                               (cd cd_starting_force))
                        (cd cd_continuous_power)))) c.

Definition validate_vehicle_summary : M lazy_convoy_t unit :=
  ok <- gets (fun c => valid c cd_vehicle_summary) ;;
  if ok then ret tt
  else mark_valid cd_vehicle_summary ;;
       hook cd_vehicle_summary (set_vehicle update_vehicle_summary).

Definition get_vehicle_summary : M lazy_convoy_t vehicle_summary_t :=
  validate_vehicle_summary ;; gets vehicle.

Definition invalidate_adverse_summary (c : lazy_convoy_t) : lazy_convoy_t :=
  set_is_valid
    (fun bits =>
       Z.land bits
         (Z.lnot (Z.lor (cd cd_adverse_summary) (cd cd_weight_summary)))) c.

Definition validate_adverse_summary : M lazy_convoy_t unit :=
  ok <- gets (fun c => valid c cd_adverse_summary) ;;
  if ok then ret tt
  else mark_valid cd_adverse_summary ;;
       hook cd_adverse_summary (set_adverse update_adverse_summary).

Definition get_adverse_summary : M lazy_convoy_t adverse_summary_t :=
  validate_adverse_summary ;; gets adverse.

Definition invalidate_freight_summary (c : lazy_convoy_t) : lazy_convoy_t :=
  set_is_valid (fun bits => Z.land bits (Z.lnot (cd cd_freight_summary))) c.

Definition validate_freight_summary : M lazy_convoy_t unit :=
  ok <- gets (fun c => valid c cd_freight_summary) ;;
  if ok then ret tt
  else mark_valid cd_freight_summary ;;
       hook cd_freight_summary (set_freight update_freight_summary).

Definition get_freight_summary : M lazy_convoy_t freight_summary_t :=
  validate_freight_summary ;; gets freight.

Definition invalidate_starting_force (c : lazy_convoy_t) : lazy_convoy_t :=
  set_is_valid (fun bits => Z.land bits (Z.lnot (cd cd_starting_force))) c.

Definition get_starting_force : M lazy_convoy_t Z :=
  ok <- gets (fun c => valid c cd_starting_force) ;;
  (if ok then ret tt
   else mark_valid cd_starting_force ;;
        modify (set_starting_force convoy.get_starting_force_base)) ;;
  gets starting_force.

Definition invalidate_continuous_power (c : lazy_convoy_t) : lazy_convoy_t :=
  set_is_valid (fun bits => Z.land bits (Z.lnot (cd cd_continuous_power))) c.

Definition get_continuous_power : M lazy_convoy_t Z :=
  ok <- gets (fun c => valid c cd_continuous_power) ;;
  (if ok then ret tt
   else mark_valid cd_continuous_power ;;
        power <- convoy.get_continuous_power_base get_vehicle_summary ;;
        modify (set_continuous_power power)) ;;
  gets continuous_power.

(** The constructor: [is_valid = 0]; the other members keep what the
    storage [raw] holds. *)
Definition constructor (raw : lazy_convoy_t) : lazy_convoy_t :=
  set_is_valid (fun _ => 0) raw.

(** The queries: validate, then delegate to the operation of
    [convoy_t]. *)

Definition calc_max_speed (weight : weight_summary_t) : M lazy_convoy_t Z :=
  validate_vehicle_summary ;;
  validate_adverse_summary ;;
  convoy_calc_max_speed weight.

Definition calc_max_weight (sin_alpha : Z) : M lazy_convoy_t Z :=
  validate_vehicle_summary ;;
  validate_adverse_summary ;;
  convoy_calc_max_weight sin_alpha.

Definition calc_max_starting_weight (sin_alpha : Z) : M lazy_convoy_t Z :=
  validate_vehicle_summary ;;
  validate_adverse_summary ;;
  convoy_calc_max_starting_weight sin_alpha.

Definition calc_move (delta_t : Z) (simtime_factor : float32e8_t)
    (weight : weight_summary_t)
    (akt_speed_soll next_speed_limit steps_til_limit steps_til_break : Z)
    (akt_speed sp_soll : Z) : M lazy_convoy_t (Z * Z) :=
  validate_vehicle_summary ;;
  validate_adverse_summary ;;
  convoy_calc_move delta_t simtime_factor weight akt_speed_soll
    next_speed_limit steps_til_limit steps_til_break akt_speed sp_soll.

(** [lazy_convoy_t] declares no [calc_min_braking_distance]: a call on
    a lazy convoy is the public operation it inherits from [convoy_t]. *)
Definition calc_min_braking_distance (weight : weight_summary_t)
    (v : float32e8_t) : M lazy_convoy_t Z :=
  convoy_calc_min_braking_distance weight v.

Definition calc_min_braking_distance_steps (simtime_factor : float32e8_t)
    (weight : weight_summary_t) (speed : Z) : M lazy_convoy_t Z :=
  convoy_calc_min_braking_distance_steps simtime_factor weight speed.

(** Get force at a speed, with the virtual call of [get_starting_force]
    bound to the override above. *)
Definition get_force (speed : float32e8_t) : M lazy_convoy_t Z :=
  convoy.get_force get_starting_force speed.

End Methods.

End lazy_convoy.

(** ** existing_convoy_t

    The live convoy adds a cached [weight_summary_t] and its update hook
    to the lazy convoy it extends. *)

Record existing_convoy_t : Type := mk_existing_convoy {
  as_lazy : lazy_convoy_t;
  weight : weight_summary_t
}.

Class existing_hooks : Type := {
  update_weight_summary : weight_summary_t -> weight_summary_t
}.

Module existing_convoy.

Definition set_lazy (c : existing_convoy_t) (l : lazy_convoy_t)
  : existing_convoy_t :=
  {| as_lazy := l; weight := weight c |}.

Definition set_weight (f : weight_summary_t -> weight_summary_t)
    (c : existing_convoy_t) : existing_convoy_t :=
  {| as_lazy := as_lazy c; weight := f (weight c) |}.

(** A method inherited from [lazy_convoy_t]. *)
Definition inherited {A : Type} (m : M lazy_convoy_t A)
  : M existing_convoy_t A :=
  lift as_lazy set_lazy m.

Section Methods.

Context {hooks : lazy_hooks}.
Context {whooks : existing_hooks}.
Context {engine : convoy_engine}.

Definition constructor (raw : existing_convoy_t)
  : existing_convoy_t * list convoy_detail_e :=
  let r :=
    (inherited lazy_convoy.validate_vehicle_summary ;;
     inherited lazy_convoy.validate_adverse_summary)
      (set_lazy raw (lazy_convoy.constructor (as_lazy raw))) in
  (object r, invoked r).

Definition invalidate_weight_summary (c : existing_convoy_t)
  : existing_convoy_t :=
  set_lazy c
    (lazy_convoy.set_is_valid
       (fun bits => Z.land bits (Z.lnot (cd cd_weight_summary)))
       (as_lazy c)).

Definition validate_weight_summary : M existing_convoy_t unit :=
  ok <- gets (fun c => lazy_convoy.valid (as_lazy c) cd_weight_summary) ;;
  if ok then ret tt
  else inherited (lazy_convoy.mark_valid cd_weight_summary) ;;
       hook cd_weight_summary (set_weight update_weight_summary).

Definition get_weight_summary : M existing_convoy_t weight_summary_t :=
  validate_weight_summary ;; gets weight.

Definition calc_move (delta_t : Z) (simtime_factor : float32e8_t)
    (akt_speed_soll next_speed_limit steps_til_limit steps_til_brake : Z)
    (akt_speed sp_soll : Z) : M existing_convoy_t (Z * Z) :=
  validate_weight_summary ;;
  w <- gets weight ;;
  inherited
    (convoy_calc_move delta_t simtime_factor w akt_speed_soll
       next_speed_limit steps_til_limit steps_til_brake akt_speed sp_soll).

End Methods.

End existing_convoy.

(** ** The operations that change a lazy convoy

    The methods of [lazy_convoy_t] that write [is_valid] or a cached
    member, as a type of operations, to speak about every sequence of
    calls.  [convoy_t] cannot name [is_valid], a member of its
    descendant: its code reaches the cache through these only. *)

Module lazy_ops.

Inductive lazy_op : Type :=
| op_invalidate_vehicle_summary
| op_validate_vehicle_summary
| op_get_vehicle_summary
| op_invalidate_adverse_summary
| op_validate_adverse_summary
| op_get_adverse_summary
| op_invalidate_freight_summary
| op_validate_freight_summary
| op_get_freight_summary
| op_invalidate_starting_force
| op_get_starting_force
| op_invalidate_continuous_power
| op_get_continuous_power.

Section Run.

Context {curves : convoy_curves}.
Context {hooks : lazy_hooks}.

(** The object after one call. *)
Definition run_op (o : lazy_op) (c : lazy_convoy_t) : lazy_convoy_t :=
  match o with
  | op_invalidate_vehicle_summary => lazy_convoy.invalidate_vehicle_summary c
  | op_validate_vehicle_summary =>
      object (lazy_convoy.validate_vehicle_summary c)
  | op_get_vehicle_summary => object (lazy_convoy.get_vehicle_summary c)
  | op_invalidate_adverse_summary => lazy_convoy.invalidate_adverse_summary c
  | op_validate_adverse_summary =>
      object (lazy_convoy.validate_adverse_summary c)
  | op_get_adverse_summary => object (lazy_convoy.get_adverse_summary c)
  | op_invalidate_freight_summary => lazy_convoy.invalidate_freight_summary c
  | op_validate_freight_summary =>
      object (lazy_convoy.validate_freight_summary c)
  | op_get_freight_summary => object (lazy_convoy.get_freight_summary c)
  | op_invalidate_starting_force => lazy_convoy.invalidate_starting_force c
  | op_get_starting_force => object (lazy_convoy.get_starting_force c)
  | op_invalidate_continuous_power =>
      lazy_convoy.invalidate_continuous_power c
  | op_get_continuous_power => object (lazy_convoy.get_continuous_power c)
  end.

(** The object after a sequence of calls on a newly constructed one. *)
Definition run_ops (ops : list lazy_op) (raw : lazy_convoy_t)
  : lazy_convoy_t :=
  fold_left (fun c o => run_op o c) ops (lazy_convoy.constructor raw).

End Run.

End lazy_ops.

(** ** weg_t: the inline methods of the way class (weg.h) *)

Module weg.

Definition u4 (x : Z) : Z := x mod 2 ^ 4.
Definition u8 (x : Z) : Z := x mod 2 ^ 8.
Definition u16 (x : Z) : Z := x mod 2 ^ 16.
Definition s16 (x : Z) : Z := (x + 2 ^ 15) mod 2 ^ 16 - 2 ^ 15.

Definition HAS_SIDEWALK : Z := 0x01.
Definition IS_ELECTRIFIED : Z := 0x02.
Definition HAS_SIGN : Z := 0x04.
Definition HAS_SIGNAL : Z := 0x08.
Definition HAS_WAYOBJ : Z := 0x10.
Definition HAS_CROSSING : Z := 0x20.
Definition IS_DIAGONAL : Z := 0x40.
Definition IS_SNOW : Z := 0x80.

Inductive way_statistics : Type :=
| WAY_STAT_GOODS
| WAY_STAT_CONVOIS.

(** One month of [statistics]: a [sint16] per kind of statistics. *)
Record month_t : Type := mk_month {
  goods : Z;
  convois : Z
}.

(** The members the inline methods read or write: [statistics] with its
    two months, the two 4-bit fields [ribi] and [ribi_maske], the [uint8]
    [flags], the [uint16] [max_speed]. *)
Record weg_t : Type := mk_weg {
  statistics_0 : month_t;
  statistics_1 : month_t;
  ribi : Z;
  ribi_maske : Z;
  flags : Z;
  max_speed : Z
}.

Definition month_get (m : month_t) (type : way_statistics) : Z :=
  match type with
  | WAY_STAT_GOODS => goods m
  | WAY_STAT_CONVOIS => convois m
  end.

Definition month_add (m : month_t) (type : way_statistics) (amount : Z)
  : month_t :=
  match type with
  | WAY_STAT_GOODS =>
      {| goods := s16 (goods m + amount); convois := convois m |}
  | WAY_STAT_CONVOIS =>
      {| goods := goods m; convois := s16 (convois m + amount) |}
  end.

Definition with_flags (w : weg_t) (f : Z) : weg_t :=
  {| statistics_0 := statistics_0 w; statistics_1 := statistics_1 w;
     ribi := ribi w; ribi_maske := ribi_maske w; flags := f;
     max_speed := max_speed w |}.

Definition with_ribi (w : weg_t) (r : Z) : weg_t :=
  {| statistics_0 := statistics_0 w; statistics_1 := statistics_1 w;
     ribi := r; ribi_maske := ribi_maske w; flags := flags w;
     max_speed := max_speed w |}.

Definition with_ribi_maske (w : weg_t) (r : Z) : weg_t :=
  {| statistics_0 := statistics_0 w; statistics_1 := statistics_1 w;
     ribi := ribi w; ribi_maske := r; flags := flags w;
     max_speed := max_speed w |}.

Definition set_max_speed (w : weg_t) (s : Z) : weg_t :=
  {| statistics_0 := statistics_0 w; statistics_1 := statistics_1 w;
     ribi := ribi w; ribi_maske := ribi_maske w; flags := flags w;
     max_speed := u16 s |}.

Definition get_max_speed (w : weg_t) : Z := max_speed w.

Definition ribi_add (w : weg_t) (r : Z) : weg_t :=
  with_ribi w (u4 (Z.lor (ribi w) (u8 r))).

Definition ribi_rem (w : weg_t) (r : Z) : weg_t :=
  with_ribi w (u4 (Z.land (ribi w) (u8 (Z.lnot r)))).

Definition set_ribi (w : weg_t) (r : Z) : weg_t := with_ribi w (u4 (u8 r)).

Definition get_ribi_unmasked (w : weg_t) : Z := ribi w.

Definition get_ribi (w : weg_t) : Z :=
  u8 (Z.land (ribi w) (Z.lnot (ribi_maske w))).

Definition set_ribi_maske (w : weg_t) (r : Z) : weg_t :=
  with_ribi_maske w (u4 (u8 r)).

Definition get_ribi_maske (w : weg_t) : Z := ribi_maske w.

Definition book (w : weg_t) (amount : Z) (type : way_statistics) : weg_t :=
  {| statistics_0 := month_add (statistics_0 w) type amount;
     statistics_1 := statistics_1 w;
     ribi := ribi w; ribi_maske := ribi_maske w; flags := flags w;
     max_speed := max_speed w |}.

Definition get_statistics (w : weg_t) (type : way_statistics) : Z :=
  month_get (statistics_1 w) type.

(** [flags & mask] as a truth value. *)
Definition flag (w : weg_t) (mask : Z) : bool :=
  negb (Z.land (flags w) mask =? 0).

Definition set_gehweg (w : weg_t) (yesno : bool) : weg_t :=
  with_flags w
    (u8 (if yesno then Z.lor (flags w) HAS_SIDEWALK
         else Z.land (flags w) (Z.lnot HAS_SIDEWALK))).

Definition hat_gehweg (w : weg_t) : bool := flag w HAS_SIDEWALK.

Definition set_electrify (w : weg_t) (janein : bool) : weg_t :=
  with_flags w
    (if janein then u8 (Z.lor (flags w) IS_ELECTRIFIED)
     else u8 (Z.land (flags w) (Z.lnot IS_ELECTRIFIED))).

Definition is_electrified (w : weg_t) : bool := flag w IS_ELECTRIFIED.
Definition has_sign (w : weg_t) : bool := flag w HAS_SIGN.
Definition has_signal (w : weg_t) : bool := flag w HAS_SIGNAL.
Definition has_wayobj (w : weg_t) : bool := flag w HAS_WAYOBJ.
Definition is_crossing (w : weg_t) : bool := flag w HAS_CROSSING.
Definition is_diagonal (w : weg_t) : bool := flag w IS_DIAGONAL.
Definition is_snow (w : weg_t) : bool := flag w IS_SNOW.

Definition clear_crossing (w : weg_t) : weg_t :=
  with_flags w (u8 (Z.land (flags w) (Z.lnot HAS_CROSSING))).

Definition clear_sign_flag (w : weg_t) : weg_t :=
  with_flags w (u8 (Z.land (flags w) (Z.lnot (Z.lor HAS_SIGN HAS_SIGNAL)))).

(** The eight flag queries, in the order of the enumeration. *)
Definition flag_view (w : weg_t) : list bool :=
  [hat_gehweg w; is_electrified w; has_sign w; has_signal w;
   has_wayobj w; is_crossing w; is_diagonal w; is_snow w].

End weg.

(** ** Helpers of the script interface (api_obj_desc.cc)

    A descriptor pointer is an [option]: [None] is the null pointer.  Of
    [haus_besch_t] the helper reads [get_enabled], a [uint8]. *)

Module api_obj_desc.

Record haus_besch_t : Type := mk_haus_besch {
  get_enabled : Z
}.

Definition building_enables (besch : option haus_besch_t) (which : Z)
  : bool :=
  match besch with
  | Some b => negb (Z.land (get_enabled b) which =? 0)
  | None => false
  end.

End api_obj_desc.

(** ** A convoy to compute with *)

Module example.

(** A convoy whose engine gives 100 kN at every speed, with hooks that
    summarise a single vehicle on rails. *)
Definition flat_curves : convoy_curves :=
  {| get_brake_summary := fun _ => 50;
     get_force_summary := fun _ => 100;
     get_power_summary := fun _ => 2000;
     get_current_friction := 0 |}.

Definition one_vehicle : lazy_hooks :=
  {| update_vehicle_summary := fun vehicle =>
       vehicle_summary.update_summary 16
         (vehicle_summary.add_all vehicle [mk_vehikel_besch 8 40 120]) 8;
     update_adverse_summary := fun adverse =>
       adverse_summary.set_by_waytype adverse track_wt;
     update_freight_summary := fun freight => freight |}.

Definition fresh : lazy_convoy_t :=
  lazy_convoy.constructor
    (mk_lazy_convoy (mk_vehicle_summary 0 0 0 0)
       (mk_adverse_summary 0%Q 0%Q 0%Q 0) (mk_freight_summary 0 0) 0 0 63).

(** What an operation of [convoy_t] finds when it is entered: is the
    vehicle summary valid, is the adverse summary valid (1 for yes). *)
Definition seen (c : lazy_convoy_t) : Z * Z :=
  (Z.b2z (lazy_convoy.valid c cd_vehicle_summary),
   Z.b2z (lazy_convoy.valid c cd_adverse_summary)).

(** An engine whose operations return what they find: [calc_move] both
    answers, the others 1 when both summaries are valid. *)
Definition probe : convoy_engine :=
  {| convoy_calc_max_speed := fun _ =>
       gets (fun c => fst (seen c) * snd (seen c));
     convoy_calc_max_weight := fun _ =>
       gets (fun c => fst (seen c) * snd (seen c));
     convoy_calc_max_starting_weight := fun _ =>
       gets (fun c => fst (seen c) * snd (seen c));
     convoy_calc_min_braking_distance := fun _ _ =>
       gets (fun c => fst (seen c) * snd (seen c));
     convoy_calc_min_braking_distance_steps := fun _ _ _ =>
       gets (fun c => fst (seen c) * snd (seen c));
     convoy_calc_move := fun _ _ _ _ _ _ _ _ _ => gets seen |}.

Definition keep_weight : existing_hooks :=
  {| update_weight_summary := fun weight => weight |}.

(** A live convoy, newly constructed, and the same after its vehicle
    list changed. *)
Definition live : existing_convoy_t :=
  fst (existing_convoy.constructor (hooks := one_vehicle)
         (mk_existing_convoy fresh (mk_weight_summary 0 0%Q 0%Q))).

Definition live_changed : existing_convoy_t :=
  existing_convoy.set_lazy live
    (lazy_convoy.invalidate_vehicle_summary (as_lazy live)).

End example.

(** ** Vocabulary of the statements about the caching layer *)

Module cache_spec.

(** The details whose validity bits an invalidation clears. *)
Definition cleared_by_vehicle : list convoy_detail_e :=
  [cd_vehicle_summary; cd_adverse_summary; cd_weight_summary;
   cd_starting_force; cd_continuous_power].

Definition cleared_by_adverse : list convoy_detail_e :=
  [cd_adverse_summary; cd_weight_summary].

(** Is [i] the bit position of one of the details of [ds]? *)
Definition bit_of (ds : list convoy_detail_e) (i : Z) : bool :=
  existsb (fun d => i =? cd_bit d) ds.

(** [ds] names the detail [d]. *)
Definition names (ds : list convoy_detail_e) (d : convoy_detail_e) : bool :=
  bit_of ds (cd_bit d).

(** Every member but [is_valid] is the same in both objects. *)
Definition same_cache (c c' : lazy_convoy_t) : Prop :=
  vehicle c' = vehicle c /\ adverse c' = adverse c /\ freight c' = freight c
  /\ starting_force c' = starting_force c
  /\ continuous_power c' = continuous_power c.

(** A validity check of detail [d], whose bit [is_set] reads: it invokes
    the hook of [d] exactly when the bit is clear, leaves the bit set, and
    a second call right after it changes nothing and invokes nothing. *)
Definition checks_once {S : Type} (is_set : S -> bool)
    (validate : M S unit) (d : convoy_detail_e) : Prop :=
  forall c : S,
    invoked (validate c) = (if is_set c then [] else [d])
    /\ is_set (object (validate c)) = true
    /\ validate (object (validate c)) = (tt, object (validate c), [])
    /\ (validate ;; validate) c = validate c
    /\ (length (invoked ((validate ;; validate) c)) <= 1)%nat.

(** The dependency chain of the queries. *)
Definition validate_chain {hks : lazy_hooks} : M lazy_convoy_t unit :=
  lazy_convoy.validate_vehicle_summary ;;
  lazy_convoy.validate_adverse_summary.

(** [query] is: the chain, then [base] on the object the chain leaves. *)
Definition delegates_after_chain {hks : lazy_hooks} {A : Type}
    (query base : M lazy_convoy_t A) : Prop :=
  forall c : lazy_convoy_t,
    query c =
    (result (base (object (validate_chain c))),
     object (base (object (validate_chain c))),
     invoked (validate_chain c) ++ invoked (base (object (validate_chain c)))).

End cache_spec.

(** ** Vocabulary of the statements about the coefficients *)

Module adverse_spec.

(** The six classes of way types the coefficients are tabulated for, each
    by its leading way type. *)
Definition way_classes : list waytype_t :=
  [track_wt; tram_wt; road_wt; water_wt; air_wt; maglev_wt].

(** The same three coefficients, as numbers. *)
Definition same_coefficients (a b : adverse_summary_t) : Prop :=
  (cf a == cf b /\ fr a == fr b /\ br a == br b)%Q.

(** The table of [set_by_waytype] in numbers: (cf, fr, br). *)
Definition coefficient_table (waytype : waytype_t) : Q * Q * Q :=
  match waytype with
  | air_wt => (1, 1 # 1000, 2)
  | water_wt => (25, 1 # 1000, 1 # 10)
  | track_wt | narrowgauge_wt | overheadlines_wt => (13, 51 # 10000, 1 # 2)
  | tram_wt | monorail_wt => (13, 51 # 10000, 1)
  | maglev_wt => (10, 15 # 10000, 12 # 10)
  | road_wt | invalid_wt | other_wt => (252 # 100, 15 # 1000, 1)
  end%Q.

End adverse_spec.

(** ** Vocabulary of the statements about every sequence of calls *)

Module lazy_spec.

(** [is_valid] holds nothing but the six validity bits. *)
Definition only_detail_bits (c : lazy_convoy_t) : Prop :=
  0 <= is_valid c < 64.

(** A continuous power marked valid comes with a valid vehicle
    summary, from whose max_speed it is computed. *)
Definition power_has_vehicle (c : lazy_convoy_t) : bool :=
  implb (lazy_convoy.valid c cd_continuous_power)
        (lazy_convoy.valid c cd_vehicle_summary).

(** The validity of the six details, in the order of the enumeration. *)
Definition valid_view (c : lazy_convoy_t) : list bool :=
  map (lazy_convoy.valid c)
    [cd_vehicle_summary; cd_adverse_summary; cd_freight_summary;
     cd_weight_summary; cd_starting_force; cd_continuous_power].

End lazy_spec.

(** ** Vocabulary of the statements about ways *)

Module weg_spec.

(** The four direction bits of a value. *)
Definition bits4 (x : Z) : list bool := map (Z.testbit x) [0; 1; 2; 3].

End weg_spec.

(** * Properties *)

(** ** Wrap-around *)

Module IntFacts.

Lemma u32_range x : is_uint32 (u32 x).
Proof. unfold is_uint32, u32. apply Z.mod_pos_bound. lia. Qed.

Lemma s32_range x : is_sint32 (s32 x).
Proof.
  unfold is_sint32, s32.
  pose proof (Z.mod_pos_bound (x + 2 ^ 31) (2 ^ 32) ltac:(lia)). lia.
Qed.

Lemma u32_small x : is_uint32 x -> u32 x = x.
Proof. unfold is_uint32, u32. intros H. apply Z.mod_small. exact H. Qed.

Lemma s32_small x : is_sint32 x -> s32 x = x.
Proof.
  unfold is_sint32, s32. intros H.
  rewrite Z.mod_small by lia. lia.
Qed.

Lemma u32_add_l x y : u32 (u32 x + y) = u32 (x + y).
Proof. unfold u32. apply Zplus_mod_idemp_l. Qed.

Lemma s32_add_l x y : s32 (s32 x + y) = s32 (x + y).
Proof.
  unfold s32.
  replace ((x + 2 ^ 31) mod 2 ^ 32 - 2 ^ 31 + y + 2 ^ 31)
    with ((x + 2 ^ 31) mod 2 ^ 32 + y) by lia.
  rewrite Zplus_mod_idemp_l. f_equal. f_equal. lia.
Qed.

End IntFacts.

Import IntFacts.

(** ** vehicle_summary_t *)

Section VehicleSummaryFacts.

Import vehicle_summary.

(** C3.  With no vehicle the summary is the documented sentinel:
    [clear] alone, that is the summary of the empty vehicle list, has
    max_speed = KMH_SPEED_UNLIMITED = 300000 km/h and length, tiles and
    weight zero, whatever the summary held before. *)
Theorem clear_is_unlimited_sentinel (s : vehicle_summary_t) :
  add_all s [] = clear s /\
  vs_max_speed (clear s) = KMH_SPEED_UNLIMITED /\
  KMH_SPEED_UNLIMITED = 300000 /\
  vs_length (clear s) = 0 /\
  vs_tiles (clear s) = 0 /\
  vs_weight (clear s) = 0.
Proof. repeat split. Qed.

Lemma fold_min_push (m x : Z) (xs : list Z) :
  fold_right Z.min (Z.min m x) xs = Z.min x (fold_right Z.min m xs).
Proof.
  induction xs as [|y xs IH]; cbn [fold_right].
  - apply Z.min_comm.
  - rewrite IH. lia.
Qed.

(** What a run of [add_vehicle] does to each field, from any summary
    whose fields are in the range of their types. *)
Lemma fold_add_vehicle (l : list vehikel_besch_t) : forall s,
  is_uint32 (vs_length s) -> is_sint32 (vs_weight s) ->
  vs_length (fold_left add_vehicle l s) = u32 (vs_length s + total_length l)
  /\ vs_weight (fold_left add_vehicle l s)
     = s32 (vs_weight s + total_gewicht l)
  /\ vs_max_speed (fold_left add_vehicle l s)
     = fold_right Z.min (vs_max_speed s) (map get_geschw l)
  /\ vs_tiles (fold_left add_vehicle l s) = vs_tiles s.
Proof.
  unfold total_length, total_gewicht.
  induction l as [|b l IH]; intros s Hlen Hwt; cbn [fold_left map fold_right].
  - rewrite !Z.add_0_r, u32_small, s32_small by assumption. auto.
  - destruct (IH (add_vehicle s b)) as (IHl & IHw & IHm & IHt);
      [apply u32_range | apply s32_range |].
    rewrite IHl, IHw, IHm, IHt. cbn [add_vehicle vs_length vs_weight
      vs_max_speed vs_tiles].
    rewrite u32_add_l, s32_add_l, fold_min_push.
    repeat split; f_equal; lia.
Qed.

Lemma speed_cap_lower_bound (l : list vehikel_besch_t) :
  speed_cap l <= KMH_SPEED_UNLIMITED
  /\ forall b, In b l -> speed_cap l <= get_geschw b.
Proof.
  unfold speed_cap. induction l as [|a l [IHu IHb]]; cbn [map fold_right].
  - split; [lia | intros b []].
  - split; [lia |]. intros b [<- | Hb]; [lia |].
    specialize (IHb b Hb). lia.
Qed.

Lemma speed_cap_attained (l : list vehikel_besch_t) :
  speed_cap l = KMH_SPEED_UNLIMITED \/ In (speed_cap l) (map get_geschw l).
Proof.
  unfold speed_cap. induction l as [|a l IH]; cbn [map fold_right].
  - now left.
  - destruct (Z.min_spec (get_geschw a)
                (fold_right Z.min KMH_SPEED_UNLIMITED (map get_geschw l)))
      as [[_ ->] | [_ ->]].
    + right. now left.
    + destruct IH as [IH | IH]; [now left | right; now right].
Qed.

(** After [clear], adding the vehicles of any list whose total length
    fits a uint32 and whose total weight fits a sint32 gives the two sums
    and, as max_speed, the least of KMH_SPEED_UNLIMITED and the vehicles'
    top speeds: a lower bound of 300000 and of every top speed, equal to
    one of them. *)
Lemma add_all_totals_and_cap
    (s0 : vehicle_summary_t) (l : list vehikel_besch_t) :
  is_uint32 (total_length l) ->
  is_sint32 (total_gewicht l) ->
  vs_length (add_all s0 l) = total_length l
  /\ vs_weight (add_all s0 l) = total_gewicht l
  /\ vs_max_speed (add_all s0 l) = speed_cap l
  /\ speed_cap l <= KMH_SPEED_UNLIMITED
  /\ (forall b, In b l -> speed_cap l <= get_geschw b)
  /\ (speed_cap l = KMH_SPEED_UNLIMITED
      \/ In (speed_cap l) (map get_geschw l))
  /\ ((exists b, In b l /\ get_geschw b <= KMH_SPEED_UNLIMITED) ->
      is_minimum (vs_max_speed (add_all s0 l)) (map get_geschw l)).
Proof.
  intros Hlen Hwt. unfold add_all.
  destruct (fold_add_vehicle l (clear s0)) as (El & Ew & Em & _);
    [cbn; unfold is_uint32; lia | cbn; unfold is_sint32; lia |].
  cbn [clear vs_length vs_weight vs_max_speed] in El, Ew, Em.
  fold (speed_cap l) in Em.
  rewrite Z.add_0_l in El, Ew.
  rewrite u32_small in El by assumption.
  rewrite s32_small in Ew by assumption.
  destruct (speed_cap_lower_bound l) as [Hu Hb].
  pose proof (speed_cap_attained l) as Hatt.
  repeat split; try assumption.
  - rewrite Em. destruct Hatt as [Hatt | Hatt]; [| exact Hatt].
    destruct H as (b & Hin & Hle).
    specialize (Hb b Hin).
    assert (get_geschw b = speed_cap l) as <- by lia.
    now apply in_map.
  - rewrite Em. intros x Hx. apply in_map_iff in Hx as (b & <- & Hin).
    now apply Hb.
Qed.

(** C4.  After [clear], adding the vehicles of a list gives length =
    the sum of the vehicles' lengths, weight = the sum of their unladen
    weights, and max_speed = the minimum over the added vehicles of their
    top speeds, for every list whose sums fit the fields (uint32 length,
    sint32 weight) and that has a vehicle with a top speed of at most
    KMH_SPEED_UNLIMITED. *)
Theorem add_all_sums_and_minimum
    (s0 : vehicle_summary_t) (l : list vehikel_besch_t) :
  is_uint32 (total_length l) ->
  is_sint32 (total_gewicht l) ->
  (exists b, In b l /\ get_geschw b <= KMH_SPEED_UNLIMITED) ->
  vs_length (add_all s0 l) = total_length l
  /\ vs_weight (add_all s0 l) = total_gewicht l
  /\ is_minimum (vs_max_speed (add_all s0 l)) (map get_geschw l).
Proof.
  intros Hlen Hwt Hex.
  destruct (add_all_totals_and_cap s0 l Hlen Hwt)
    as (El & Ew & _ & _ & _ & _ & Hmin).
  split; [exact El | split; [exact Ew | exact (Hmin Hex)]].
Qed.

Lemma add_all_sums_and_minimum_witness :
  let l := [mk_vehikel_besch 8 40 120; mk_vehikel_besch 8 20 100] in
  let s := add_all (mk_vehicle_summary 0 0 0 0) l in
  vs_length s = 16 /\ vs_weight s = 60
  /\ is_minimum (vs_max_speed s) (map get_geschw l).
Proof.
  intros l s.
  apply (add_all_sums_and_minimum (mk_vehicle_summary 0 0 0 0) l).
  - vm_compute. split; [discriminate | reflexivity].
  - vm_compute. split; [discriminate | reflexivity].
  - exists (mk_vehikel_besch 8 20 100).
    split; [right; left; reflexivity | vm_compute; discriminate].
Defined.




End VehicleSummaryFacts.

(** ** The validity bits *)

Section ValidityBits.

Import lazy_convoy cache_spec.

Lemma cd_is_pow2 (d : convoy_detail_e) : cd d = 2 ^ cd_bit d /\ 0 <= cd_bit d.
Proof. destruct d; vm_compute; split; congruence. Qed.

Lemma land_pow2_zero (x k : Z) :
  0 <= k -> (Z.land x (2 ^ k) =? 0) = negb (Z.testbit x k).
Proof.
  intros Hk. destruct (Z.testbit x k) eqn:E; cbn [negb].
  - apply Z.eqb_neq. intros H0.
    assert (Hb : Z.testbit (Z.land x (2 ^ k)) k = true).
    { rewrite Z.land_spec, E, Z.pow2_bits_true by exact Hk. reflexivity. }
    rewrite H0, Z.bits_0 in Hb. discriminate.
  - apply Z.eqb_eq. apply Z.bits_inj'. intros i Hi.
    rewrite Z.land_spec, Z.bits_0, Z.pow2_bits_eqb by exact Hk.
    destruct (Z.eqb_spec k i) as [<- | _].
    + rewrite E. reflexivity.
    + apply andb_false_r.
Qed.

Lemma valid_testbit (c : lazy_convoy_t) (d : convoy_detail_e) :
  valid c d = Z.testbit (is_valid c) (cd_bit d).
Proof.
  unfold valid. destruct (cd_is_pow2 d) as [-> Hk].
  rewrite land_pow2_zero by exact Hk. apply negb_involutive.
Qed.

(** [bits & ~mask] bit by bit, for a mask that is not negative. *)
Lemma testbit_clear (bits mask i : Z) :
  0 <= mask ->
  Z.testbit (Z.land bits (Z.lnot mask)) i
  = if Z.testbit mask i then false else Z.testbit bits i.
Proof.
  intros Hm. destruct (Z.lt_ge_cases i 0) as [Hneg | Hi].
  - rewrite !Z.testbit_neg_r by exact Hneg. reflexivity.
  - rewrite Z.land_spec, Z.lnot_spec by exact Hi.
    destruct (Z.testbit mask i); cbn [negb].
    + apply andb_false_r.
    + apply andb_true_r.
Qed.

(** The bits of a mask built from enumerators. *)
Lemma testbit_mask (ds : list convoy_detail_e) (i : Z) :
  Z.testbit (fold_right (fun d m => Z.lor (cd d) m) 0 ds) i = bit_of ds i.
Proof.
  unfold bit_of. induction ds as [|d ds IH]; cbn [fold_right existsb].
  - apply Z.bits_0.
  - rewrite Z.lor_spec, IH. f_equal.
    destruct (cd_is_pow2 d) as [-> Hk].
    rewrite Z.pow2_bits_eqb by exact Hk. apply Z.eqb_sym.
Qed.

Lemma valid_mark (c : lazy_convoy_t) (d d' : convoy_detail_e) :
  valid (set_is_valid (fun bits => Z.lor bits (cd d)) c) d'
  = valid c d' || (cd_bit d' =? cd_bit d).
Proof.
  rewrite !valid_testbit. cbn [set_is_valid is_valid].
  rewrite Z.lor_spec. f_equal.
  destruct (cd_is_pow2 d) as [-> Hk].
  rewrite Z.pow2_bits_eqb by exact Hk. apply Z.eqb_sym.
Qed.

(** C1.  [invalidate_vehicle_summary] clears the validity bits of
    vehicle_summary, adverse_summary, weight_summary, starting_force and
    continuous_power and no other bit of [is_valid] (so the bit of
    freight_summary is as it was); [invalidate_adverse_summary] clears the
    bits of adverse_summary and weight_summary and no other bit.  Both
    leave the cached values themselves untouched. *)
Theorem invalidate_clears_exactly (c : lazy_convoy_t) :
  (forall i,
     Z.testbit (is_valid (invalidate_vehicle_summary c)) i
     = if bit_of cleared_by_vehicle i then false
       else Z.testbit (is_valid c) i)
  /\ (forall d,
        valid (invalidate_vehicle_summary c) d
        = if names cleared_by_vehicle d then false else valid c d)
  /\ valid (invalidate_vehicle_summary c) cd_freight_summary
     = valid c cd_freight_summary
  /\ same_cache c (invalidate_vehicle_summary c)
  /\ (forall i,
        Z.testbit (is_valid (invalidate_adverse_summary c)) i
        = if bit_of cleared_by_adverse i then false
          else Z.testbit (is_valid c) i)
  /\ (forall d,
        valid (invalidate_adverse_summary c) d
        = if names cleared_by_adverse d then false else valid c d)
  /\ same_cache c (invalidate_adverse_summary c).
Proof.
  assert (Hv : forall i,
     Z.testbit (is_valid (invalidate_vehicle_summary c)) i
     = if bit_of cleared_by_vehicle i then false
       else Z.testbit (is_valid c) i).
  { intros i. cbn [invalidate_vehicle_summary set_is_valid is_valid].
    rewrite testbit_clear by (vm_compute; discriminate).
    rewrite <- (testbit_mask cleared_by_vehicle i).
    replace (fold_right (fun d m => Z.lor (cd d) m) 0 cleared_by_vehicle)
      with (Z.lor (Z.lor (Z.lor (Z.lor (cd cd_vehicle_summary)
              (cd cd_adverse_summary)) (cd cd_weight_summary))
              (cd cd_starting_force)) (cd cd_continuous_power))
      by reflexivity.
    reflexivity. }
  assert (Ha : forall i,
     Z.testbit (is_valid (invalidate_adverse_summary c)) i
     = if bit_of cleared_by_adverse i then false
       else Z.testbit (is_valid c) i).
  { intros i. cbn [invalidate_adverse_summary set_is_valid is_valid].
    rewrite testbit_clear by (vm_compute; discriminate).
    rewrite <- (testbit_mask cleared_by_adverse i).
    replace (fold_right (fun d m => Z.lor (cd d) m) 0 cleared_by_adverse)
      with (Z.lor (cd cd_adverse_summary) (cd cd_weight_summary))
      by reflexivity.
    reflexivity. }
  split; [exact Hv |].
  split; [| split; [| split; [| split; [exact Ha | split]]]].
  - intros d. rewrite !valid_testbit. apply Hv.
  - rewrite !valid_testbit, Hv. reflexivity.
  - repeat split.
  - intros d. rewrite !valid_testbit. apply Ha.
  - repeat split.
Qed.

End ValidityBits.

(** ** Validation *)

Section Validation.

Import lazy_convoy cache_spec.

Context {hks : lazy_hooks}.
Context {whks : existing_hooks}.

(** Unfolding of the method combinators. *)
Ltac run_method :=
  unfold bind, gets, ret, modify, hook, mark_valid, lift, result, object,
    invoked;
  cbn [fst snd].

Lemma valid_mark_same (c : lazy_convoy_t) (d : convoy_detail_e) :
  valid (set_is_valid (fun bits => Z.lor bits (cd d)) c) d = true.
Proof. rewrite valid_mark, Z.eqb_refl. apply orb_true_r. Qed.

Lemma valid_set_vehicle f (c : lazy_convoy_t) (d : convoy_detail_e) :
  valid (set_vehicle f c) d = valid c d.
Proof. reflexivity. Qed.

Lemma valid_set_adverse f (c : lazy_convoy_t) (d : convoy_detail_e) :
  valid (set_adverse f c) d = valid c d.
Proof. reflexivity. Qed.

(** The three checks of [lazy_convoy_t], each as a case split on its
    bit. *)
Lemma validate_vehicle_summary_run (c : lazy_convoy_t) :
  validate_vehicle_summary c
  = if valid c cd_vehicle_summary then (tt, c, [])
    else (tt,
          set_vehicle update_vehicle_summary
            (set_is_valid (fun bits => Z.lor bits (cd cd_vehicle_summary)) c),
          [cd_vehicle_summary]).
Proof.
  unfold validate_vehicle_summary. run_method.
  destruct (valid c cd_vehicle_summary); reflexivity.
Qed.

Lemma validate_adverse_summary_run (c : lazy_convoy_t) :
  validate_adverse_summary c
  = if valid c cd_adverse_summary then (tt, c, [])
    else (tt,
          set_adverse update_adverse_summary
            (set_is_valid (fun bits => Z.lor bits (cd cd_adverse_summary)) c),
          [cd_adverse_summary]).
Proof.
  unfold validate_adverse_summary. run_method.
  destruct (valid c cd_adverse_summary); reflexivity.
Qed.

Lemma validate_freight_summary_run (c : lazy_convoy_t) :
  validate_freight_summary c
  = if valid c cd_freight_summary then (tt, c, [])
    else (tt,
          set_freight update_freight_summary
            (set_is_valid (fun bits => Z.lor bits (cd cd_freight_summary)) c),
          [cd_freight_summary]).
Proof.
  unfold validate_freight_summary. run_method.
  destruct (valid c cd_freight_summary); reflexivity.
Qed.

Lemma validate_weight_summary_run (c : existing_convoy_t) :
  existing_convoy.validate_weight_summary c
  = if valid (as_lazy c) cd_weight_summary then (tt, c, [])
    else (tt,
          existing_convoy.set_weight update_weight_summary
            (existing_convoy.set_lazy c
               (set_is_valid (fun bits => Z.lor bits (cd cd_weight_summary))
                  (as_lazy c))),
          [cd_weight_summary]).
Proof.
  unfold existing_convoy.validate_weight_summary, existing_convoy.inherited.
  run_method.
  destruct (valid (as_lazy c) cd_weight_summary); reflexivity.
Qed.

(** A check that runs as such a case split checks once. *)
Lemma case_split_checks_once {S : Type} (is_set : S -> bool)
    (validate : M S unit) (d : convoy_detail_e) (recompute : S -> S) :
  (forall c, validate c
             = if is_set c then (tt, c, []) else (tt, recompute c, [d])) ->
  (forall c, is_set (recompute c) = true) ->
  checks_once is_set validate d.
Proof.
  intros Hrun Hset c.
  assert (Hafter : is_set (object (validate c)) = true).
  { rewrite Hrun. destruct (is_set c) eqn:E; cbn; [exact E | apply Hset]. }
  assert (Hsecond :
    validate (object (validate c)) = (tt, object (validate c), [])).
  { rewrite (Hrun (object (validate c))), Hafter. reflexivity. }
  assert (Htwice : (validate ;; validate) c = validate c).
  { unfold bind. unfold object in Hsecond.
    destruct (validate c) as [[[] c1] l1]. cbn [fst snd] in Hsecond.
    rewrite Hsecond, app_nil_r. reflexivity. }
  repeat split; try assumption.
  - rewrite Hrun. destruct (is_set c); reflexivity.
  - rewrite Htwice, Hrun. destruct (is_set c); cbn; lia.
Qed.

(** C7.  Each validity check ([validate_vehicle_summary],
    [validate_adverse_summary], [validate_freight_summary] and
    [existing_convoy_t::validate_weight_summary]) invokes its update hook
    only when its validity bit is clear and leaves the bit set; a second
    call directly after it finds the bit set, invokes no hook and leaves
    the object unchanged, so two consecutive calls invoke the hook at most
    once in total. *)
Theorem validity_checks_recompute_at_most_once :
  checks_once (fun c => valid c cd_vehicle_summary)
    validate_vehicle_summary cd_vehicle_summary
  /\ checks_once (fun c => valid c cd_adverse_summary)
       validate_adverse_summary cd_adverse_summary
  /\ checks_once (fun c => valid c cd_freight_summary)
       validate_freight_summary cd_freight_summary
  /\ checks_once (fun c => valid (as_lazy c) cd_weight_summary)
       existing_convoy.validate_weight_summary cd_weight_summary.
Proof.
  split; [| split; [| split]].
  - eapply case_split_checks_once.
    + exact validate_vehicle_summary_run.
    + intros c. apply valid_mark_same.
  - eapply case_split_checks_once.
    + exact validate_adverse_summary_run.
    + intros c. apply valid_mark_same.
  - eapply case_split_checks_once.
    + exact validate_freight_summary_run.
    + intros c. apply valid_mark_same.
  - eapply case_split_checks_once.
    + exact validate_weight_summary_run.
    + intros c. apply valid_mark_same.
Qed.

End Validation.

(** ** Queries *)

Section Queries.

Import lazy_convoy cache_spec.

Context {hks : lazy_hooks}.
Context {whks : existing_hooks}.
Context {engine : convoy_engine}.

Lemma chain_then {A : Type} (m1 m2 : M lazy_convoy_t unit)
    (k : M lazy_convoy_t A) (c : lazy_convoy_t) :
  (m1 ;; m2 ;; k) c
  = (result (k (object ((m1 ;; m2) c))),
     object (k (object ((m1 ;; m2) c))),
     invoked ((m1 ;; m2) c) ++ invoked (k (object ((m1 ;; m2) c)))).
Proof.
  unfold bind, result, object, invoked.
  destruct (m1 c) as [[[] c1] l1]. destruct (m2 c1) as [[[] c2] l2].
  cbn [fst snd]. destruct (k c2) as [[a c3] l3]. cbn [fst snd].
  rewrite app_assoc. reflexivity.
Qed.

(** What the chain does: the two checks in order, each recomputing its
    summary through its hook exactly when its bit is clear. *)
Lemma validate_chain_run (c : lazy_convoy_t) :
  valid (object (validate_chain c)) cd_vehicle_summary = true
  /\ valid (object (validate_chain c)) cd_adverse_summary = true
  /\ invoked (validate_chain c)
     = (if valid c cd_vehicle_summary then [] else [cd_vehicle_summary])
       ++ (if valid c cd_adverse_summary then [] else [cd_adverse_summary])
  /\ vehicle (object (validate_chain c))
     = (if valid c cd_vehicle_summary then vehicle c
        else update_vehicle_summary (vehicle c))
  /\ adverse (object (validate_chain c))
     = (if valid c cd_adverse_summary then adverse c
        else update_adverse_summary (adverse c)).
Proof.
  unfold validate_chain, bind, object, invoked.
  rewrite validate_vehicle_summary_run.
  destruct (valid c cd_vehicle_summary) eqn:Ev;
    rewrite validate_adverse_summary_run, ?valid_set_vehicle, ?valid_mark;
    rewrite ?Ev; destruct (valid c cd_adverse_summary) eqn:Ea;
    try change (cd_bit cd_adverse_summary =? cd_bit cd_vehicle_summary)
      with false;
    cbn [fst snd orb]; repeat split;
    repeat first [ rewrite valid_mark_same | rewrite valid_set_vehicle
                 | rewrite valid_set_adverse | rewrite valid_mark
                 | rewrite Ev | rewrite Ea ];
    reflexivity.
Qed.

(** The overload [existing_convoy_t::calc_move], which takes no weight,
    checks the weight summary alone before it runs [convoy_t::calc_move]
    on the cached weight. *)
Lemma existing_calc_move_run
    (delta_t : Z) (simtime_factor : float32e8_t)
    (akt_speed_soll next_speed_limit steps_til_limit steps_til_brake : Z)
    (akt_speed sp_soll : Z) (c : existing_convoy_t) :
  existing_convoy.calc_move delta_t simtime_factor akt_speed_soll
    next_speed_limit steps_til_limit steps_til_brake akt_speed sp_soll c
  = let v := existing_convoy.validate_weight_summary c in
    let r := convoy_calc_move delta_t simtime_factor (weight (object v))
               akt_speed_soll next_speed_limit steps_til_limit
               steps_til_brake akt_speed sp_soll (as_lazy (object v)) in
    (result r, existing_convoy.set_lazy (object v) (object r),
     invoked v ++ invoked r).
Proof.
  unfold existing_convoy.calc_move, existing_convoy.inherited, bind, gets,
    lift, result, object, invoked.
  destruct (existing_convoy.validate_weight_summary c) as [[[] c1] l1].
  cbn [fst snd].
  destruct (convoy_calc_move _ _ _ _ _ _ _ _ _ _) as [[a c2] l2].
  reflexivity.
Qed.

(** What the weight check leaves of the lazy part: the bit of the
    weight set, every other bit and both summaries as they were. *)
Lemma validate_weight_summary_frame (c : existing_convoy_t) :
  let v := existing_convoy.validate_weight_summary c in
  invoked v
  = (if valid (as_lazy c) cd_weight_summary then [] else [cd_weight_summary])
  /\ valid (as_lazy (object v)) cd_weight_summary = true
  /\ valid (as_lazy (object v)) cd_vehicle_summary
     = valid (as_lazy c) cd_vehicle_summary
  /\ valid (as_lazy (object v)) cd_adverse_summary
     = valid (as_lazy c) cd_adverse_summary
  /\ vehicle (as_lazy (object v)) = vehicle (as_lazy c)
  /\ adverse (as_lazy (object v)) = adverse (as_lazy c).
Proof.
  cbv zeta. rewrite validate_weight_summary_run.
  destruct (valid (as_lazy c) cd_weight_summary) eqn:E;
    cbn [invoked object fst snd existing_convoy.set_weight
         existing_convoy.set_lazy as_lazy].
  - rewrite E. repeat split.
  - rewrite !valid_mark.
    change (cd_bit cd_weight_summary =? cd_bit cd_weight_summary) with true.
    change (cd_bit cd_vehicle_summary =? cd_bit cd_weight_summary)
      with false.
    change (cd_bit cd_adverse_summary =? cd_bit cd_weight_summary)
      with false.
    rewrite orb_true_r, !orb_false_r. repeat split.
Qed.

(** C2 (amended).  Each of the four queries that [lazy_convoy_t]
    declares ([calc_max_speed], [calc_max_weight],
    [calc_max_starting_weight], [calc_move] with a weight) first runs the
    chain [validate_vehicle_summary], then [validate_adverse_summary],
    where each check recomputes its summary through its update hook
    exactly when its validity bit is clear, and only then runs the
    operation of [convoy_t] of the same name, on the object the chain
    leaves: there both validity bits are set.  The overload
    [existing_convoy_t::calc_move] runs [validate_weight_summary] alone
    and then [convoy_t::calc_move] on the cached weight, with the vehicle
    and the adverse summary and their validity bits as it found them;
    [calc_min_braking_distance] is the operation of [convoy_t] itself,
    with no check before it. *)
Theorem queries_validate_then_delegate :
  (forall c : lazy_convoy_t,
     valid (object (validate_chain c)) cd_vehicle_summary = true
     /\ valid (object (validate_chain c)) cd_adverse_summary = true
     /\ invoked (validate_chain c)
        = (if valid c cd_vehicle_summary then [] else [cd_vehicle_summary])
          ++ (if valid c cd_adverse_summary then []
              else [cd_adverse_summary])
     /\ vehicle (object (validate_chain c))
        = (if valid c cd_vehicle_summary then vehicle c
           else update_vehicle_summary (vehicle c))
     /\ adverse (object (validate_chain c))
        = (if valid c cd_adverse_summary then adverse c
           else update_adverse_summary (adverse c)))
  /\ (forall weight,
        delegates_after_chain (lazy_convoy.calc_max_speed weight)
          (convoy_calc_max_speed weight))
  /\ (forall sin_alpha,
        delegates_after_chain (lazy_convoy.calc_max_weight sin_alpha)
          (convoy_calc_max_weight sin_alpha))
  /\ (forall sin_alpha,
        delegates_after_chain (lazy_convoy.calc_max_starting_weight sin_alpha)
          (convoy_calc_max_starting_weight sin_alpha))
  /\ (forall delta_t simtime_factor weight akt_speed_soll next_speed_limit
             steps_til_limit steps_til_break akt_speed sp_soll,
        delegates_after_chain
          (lazy_convoy.calc_move delta_t simtime_factor weight akt_speed_soll
             next_speed_limit steps_til_limit steps_til_break akt_speed
             sp_soll)
          (convoy_calc_move delta_t simtime_factor weight akt_speed_soll
             next_speed_limit steps_til_limit steps_til_break akt_speed
             sp_soll))
  /\ (forall delta_t simtime_factor akt_speed_soll next_speed_limit
             steps_til_limit steps_til_brake akt_speed sp_soll
             (c : existing_convoy_t),
        let v := existing_convoy.validate_weight_summary c in
        existing_convoy.calc_move delta_t simtime_factor akt_speed_soll
          next_speed_limit steps_til_limit steps_til_brake akt_speed sp_soll c
        = (let r := convoy_calc_move delta_t simtime_factor
                      (weight (object v)) akt_speed_soll next_speed_limit
                      steps_til_limit steps_til_brake akt_speed sp_soll
                      (as_lazy (object v)) in
           (result r, existing_convoy.set_lazy (object v) (object r),
            invoked v ++ invoked r))
        /\ invoked v
           = (if valid (as_lazy c) cd_weight_summary then []
              else [cd_weight_summary])
        /\ valid (as_lazy (object v)) cd_weight_summary = true
        /\ valid (as_lazy (object v)) cd_vehicle_summary
           = valid (as_lazy c) cd_vehicle_summary
        /\ valid (as_lazy (object v)) cd_adverse_summary
           = valid (as_lazy c) cd_adverse_summary
        /\ vehicle (as_lazy (object v)) = vehicle (as_lazy c)
        /\ adverse (as_lazy (object v)) = adverse (as_lazy c))
  /\ (forall weight v (c : lazy_convoy_t),
        lazy_convoy.calc_min_braking_distance weight v c
        = convoy_calc_min_braking_distance weight v c)
  /\ (forall simtime_factor weight speed (c : lazy_convoy_t),
        lazy_convoy.calc_min_braking_distance_steps simtime_factor weight
          speed c
        = convoy_calc_min_braking_distance_steps simtime_factor weight
            speed c).
Proof.
  split; [exact validate_chain_run |].
  split; [intros w c; apply chain_then |].
  split; [intros a c; apply chain_then |].
  split; [intros a c; apply chain_then |].
  split; [intros; intros c; apply chain_then |].
  split; [| split; reflexivity].
  intros. split; [apply existing_calc_move_run |].
  apply validate_weight_summary_frame.
Qed.

(** C2 as written fails on the live convoy: after
    [invalidate_vehicle_summary], [existing_convoy_t::calc_move] invokes
    the weight hook only and enters [convoy_t::calc_move] with the
    vehicle and the adverse summary both invalid, where
    [lazy_convoy_t::calc_move] on the same object validates both; the
    inherited [calc_min_braking_distance] enters the engine with invalid
    summaries as well. *)
Lemma existing_calc_move_skips_the_chain :
  let run :=
    existing_convoy.calc_move (whooks := example.keep_weight)
      (engine := example.probe) 0 1%Q 0 0 0 0 0 0 example.live_changed in
  result run = (0, 0)
  /\ invoked run = [cd_weight_summary]
  /\ result (lazy_convoy.calc_move (hooks := example.one_vehicle)
               (engine := example.probe) 0 1%Q
               (weight example.live_changed) 0 0 0 0 0 0
               (as_lazy example.live_changed))
     = (1, 1)
  /\ result (lazy_convoy.calc_min_braking_distance (engine := example.probe)
               (weight example.live_changed) 1%Q
               (as_lazy example.live_changed))
     = 0.
Proof. cbv zeta. repeat split. Qed.

End Queries.

(** ** Unit conversions *)

Section ConversionFacts.

Lemma to_sint32_nonneg (x : float32e8_t) :
  (0 <= x)%Q -> float32e8.to_sint32 x = Qfloor x.
Proof.
  destruct x as [n d]. unfold Qle, float32e8.to_sint32, Qfloor.
  cbn [Qnum Qden]. intros H.
  apply Z.quot_div_nonneg; lia.
Qed.

Lemma Qfloor_plus_half (z : Z) : Qfloor (inject_Z z + (1 # 2)) = z.
Proof.
  unfold Qfloor, Qplus, inject_Z. cbn [Qnum Qden].
  replace (z * 2 + 1 * 1) with (1 + z * 2) by lia.
  rewrite Z.div_add by lia. reflexivity.
Qed.

Import float32e8_accuracy.


Lemma Qfloor_unique (z : Z) (x : Q) :
  (inject_Z z <= x < inject_Z z + 1)%Q -> Qfloor x = z.
Proof.
  intros [Hlo Hhi].
  pose proof (Qfloor_le x) as Hle.
  pose proof (Qlt_floor x) as Hlt.
  rewrite inject_Z_plus in Hlt. change (inject_Z 1) with 1%Q in Hlt.
  assert (H1 : (inject_Z z < inject_Z (Qfloor x) + 1)%Q) by lra.
  assert (H2 : (inject_Z (Qfloor x) < inject_Z z + 1)%Q) by lra.
  change 1%Q with (inject_Z 1) in H1, H2.
  rewrite <- inject_Z_plus in H1, H2.
  rewrite <- Zlt_Qlt in H1, H2. lia.
Qed.

(** A near value of a quantity of known sign lies between two multiples
    of it. *)
Lemma near_nonneg (x r : Q) :
  (0 <= x)%Q -> near x r -> ((1 - eps) * x <= r <= (1 + eps) * x)%Q.
Proof.
  unfold near. intros Hx H. rewrite (Qabs_pos x Hx) in H.
  apply Qabs_Qle_condition in H. unfold eps in *. lra.
Qed.


Lemma mul_bounds (a x b c y d : Q) :
  (0 <= a <= x)%Q -> (x <= b)%Q -> (0 <= c <= y)%Q -> (y <= d)%Q ->
  (a * c <= x * y <= b * d)%Q.
Proof. intros [Ha Hax] Hxb [Hc Hcy] Hyd. split; nra. Qed.

Lemma near_zero (x r : Q) : (x == 0)%Q -> near x r -> (r == 0)%Q.
Proof.
  unfold near. intros Hx H. rewrite Hx in H.
  change (Qabs 0) with 0%Q in H.
  apply Qabs_Qle_condition in H. unfold eps in H. lra.
Qed.

Lemma in_range_zero (x : Q) : (x == 0)%Q -> in_range x.
Proof. intros H. left. exact H. Qed.

Lemma in_range_pos (x : Q) :
  ((1 # 18446744073709551616) <= x <= 18446744073709551616)%Q ->
  in_range x.
Proof.
  intros H. right. rewrite Qabs_pos; [exact H | lra].
Qed.


(** The accumulated error of a conversion there and back: two rounded
    constants, two rounded products and one rounded sum leave the result
    within the unit above the exact product, up to 2^26.  Every
    intermediate value is in range. *)
Lemma chain_nonneg (K M N k y1 m y2 h y3 : Q) :
  ((1 # 4294967296) <= K <= 4294967296)%Q ->
  ((1 # 4294967296) <= M <= 4294967296)%Q ->
  (1 <= N <= 67108864)%Q ->
  (1 <= M * K * N <= 67108864)%Q ->
  near K k -> (in_range (k * N) -> near (k * N) y1) ->
  near M m -> (in_range (m * y1) -> near (m * y1) y2) ->
  (h == 1 # 2)%Q -> (in_range (y2 + h) -> near (y2 + h) y3) ->
  (M * K * N <= y3 < M * K * N + 1)%Q.
Proof.
  intros HK HM HN HT Hk Hy1 Hm Hy2 Hh Hy3.
  apply near_nonneg in Hk; [| lra].
  apply near_nonneg in Hm; [| lra].
  unfold eps in *.
  assert (HKN : ((1 # 4294967296) <= K * N
                 <= 288230376151711744)%Q) by (split; nra).
  assert (P1 : ((1 - (1 # 1073741824)) * (K * N) <= k * N
                <= (1 + (1 # 1073741824)) * (K * N))%Q) by (split; nra).
  assert (R1 : in_range (k * N)) by (apply in_range_pos; split; nra).
  specialize (Hy1 R1).
  apply near_nonneg in Hy1; [| lra]. unfold eps in Hy1.
  assert (P2 : (((1 - (1 # 1073741824)) * M)
                * ((1 - (1 # 1073741824)) * ((1 - (1 # 1073741824)) * (K * N)))
                <= m * y1
                <= ((1 + (1 # 1073741824)) * M)
                   * ((1 + (1 # 1073741824))
                      * ((1 + (1 # 1073741824)) * (K * N))))%Q).
  { apply mul_bounds; first [lra | split; nra | nra]. }
  assert (R2 : in_range (m * y1)) by (apply in_range_pos; split; nra).
  specialize (Hy2 R2).
  apply near_nonneg in Hy2; [| nra]. unfold eps in Hy2.
  assert (R3 : in_range (y2 + h)) by (apply in_range_pos; split; nra).
  specialize (Hy3 R3).
  apply near_nonneg in Hy3; [| nra]. unfold eps in Hy3.
  split; nra.
Qed.

(** The same from zero: every product is zero and the sum is the
    half. *)
Lemma chain_zero (N k y1 m y2 h y3 : Q) :
  (N == 0)%Q ->
  (in_range (k * N) -> near (k * N) y1) ->
  (in_range (m * y1) -> near (m * y1) y2) ->
  (h == 1 # 2)%Q -> (in_range (y2 + h) -> near (y2 + h) y3) ->
  (0 <= y3 < 1)%Q.
Proof.
  intros HN Hy1 Hy2 Hh Hy3.
  assert (Z1 : (k * N == 0)%Q) by (rewrite HN; ring).
  apply (near_zero _ _ Z1) in Hy1; [| apply in_range_zero; exact Z1].
  assert (Z2 : (m * y1 == 0)%Q) by (rewrite Hy1; ring).
  apply (near_zero _ _ Z2) in Hy2; [| apply in_range_zero; exact Z2].
  assert (R3 : in_range (y2 + h)) by (apply in_range_pos; split; lra).
  specialize (Hy3 R3).
  apply near_nonneg in Hy3; [| lra]. unfold eps in Hy3.
  split; lra.
Qed.


Lemma ratio_bounds (n d : Z) :
  0 < n < 2 ^ 32 -> 0 < d < 2 ^ 32 ->
  ((1 # 4294967296) <= inject_Z n / inject_Z d <= 4294967296)%Q.
Proof.
  intros Hn Hd.
  assert (Hdq : (0 < inject_Z d)%Q).
  { change 0%Q with (inject_Z 0). rewrite <- Zlt_Qlt. lia. }
  split.
  - apply Qle_shift_div_l; [exact Hdq |].
    unfold Qle, Qmult, inject_Z. cbn [Qnum Qden]. lia.
  - apply Qle_shift_div_r; [exact Hdq |].
    unfold Qle, Qmult, inject_Z. cbn [Qnum Qden]. nia.
Qed.

Lemma ratio_product (n1 d1 n2 d2 c : Z) (N : Q) :
  0 < d1 -> 0 < d2 -> n2 * n1 = c * (d2 * d1) ->
  (inject_Z n2 / inject_Z d2 * (inject_Z n1 / inject_Z d1) * N
   == inject_Z c * N)%Q.
Proof.
  intros Hd1 Hd2 Heq.
  assert (E : (inject_Z n2 * inject_Z n1
               == inject_Z c * (inject_Z d2 * inject_Z d1))%Q).
  { rewrite <- !inject_Z_mult. rewrite Heq. reflexivity. }
  assert (Hz1 : ~ (inject_Z d1 == 0)%Q).
  { unfold Qeq, inject_Z. cbn [Qnum Qden]. lia. }
  assert (Hz2 : ~ (inject_Z d2 == 0)%Q).
  { unfold Qeq, inject_Z. cbn [Qnum Qden]. lia. }
  transitivity (inject_Z n2 * inject_Z n1
                / (inject_Z d2 * inject_Z d1) * N)%Q.
  - field. split; assumption.
  - rewrite E. field. split; assumption.
Qed.

Section Scaled.

Context {ops : float32e8_ops}.
Hypothesis Hacc : accurate ops.

(** A value scaled by one rounded constant, scaled again by a second
    whose exact product with the first is the integer [c], then rounded
    by the added half and the cast: the result is [c * n], up to 2^26. *)
Lemma scaled_trip_nonneg (n1 d1 n2 d2 c n : Z) :
  0 < n1 < 2 ^ 32 -> 0 < d1 < 2 ^ 32 ->
  0 < n2 < 2 ^ 32 -> 0 < d2 < 2 ^ 32 ->
  n2 * n1 = c * (d2 * d1) ->
  0 <= n -> c * n <= 2 ^ 26 -> n <= 2 ^ 26 ->
  fl_to_sint32
    (fl_add (fl_mul (fl_ratio n2 d2)
                    (fl_mul (fl_ratio n1 d1) (fl_of_sint32 n)))
            fl_half)
  = c * n.
Proof.
  intros Hn1 Hd1 Hn2 Hd2 Heq Hn Hcn Hn26.
  assert (Hc : 0 < c) by nia.
  assert (Hsn : is_sint32 n) by (unfold is_sint32; lia).
  pose proof (of_sint32_exact ops Hacc n Hsn) as HN.
  pose proof (ratio_product n1 d1 n2 d2 c (fl_of_sint32 n)
                ltac:(lia) ltac:(lia) Heq) as HT.
  assert (HTz : (inject_Z n2 / inject_Z d2 * (inject_Z n1 / inject_Z d1)
                 * fl_of_sint32 n == inject_Z (c * n))%Q).
  { rewrite HT, HN, <- inject_Z_mult. reflexivity. }
  set (y3 := fl_add _ fl_half).
  assert (Hy3 : (inject_Z (c * n) <= y3 < inject_Z (c * n) + 1)%Q).
  { destruct (Z.eq_dec n 0) as [Hz | Hnz].
    - subst n. rewrite Z.mul_0_r. unfold y3.
      change (inject_Z 0) with 0%Q. rewrite Qplus_0_l.
      apply chain_zero with (N := fl_of_sint32 0) (k := fl_ratio n1 d1)
        (m := fl_ratio n2 d2)
        (y1 := fl_mul (fl_ratio n1 d1) (fl_of_sint32 0))
        (y2 := fl_mul (fl_ratio n2 d2)
                 (fl_mul (fl_ratio n1 d1) (fl_of_sint32 0)))
        (h := fl_half).
      + exact HN.
      + apply (mul_near ops Hacc).
      + apply (mul_near ops Hacc).
      + apply (half_exact ops Hacc).
      + apply (add_near ops Hacc).
    - rewrite <- HTz. unfold y3.
      apply chain_nonneg with (k := fl_ratio n1 d1) (m := fl_ratio n2 d2)
        (y1 := fl_mul (fl_ratio n1 d1) (fl_of_sint32 n))
        (y2 := fl_mul (fl_ratio n2 d2)
                 (fl_mul (fl_ratio n1 d1) (fl_of_sint32 n)))
        (h := fl_half).
      + apply ratio_bounds; assumption.
      + apply ratio_bounds; assumption.
      + rewrite HN. change 1%Q with (inject_Z 1).
        change 67108864%Q with (inject_Z (2 ^ 26)).
        rewrite <- !Zle_Qle. lia.
      + rewrite HTz. change 1%Q with (inject_Z 1).
        change 67108864%Q with (inject_Z (2 ^ 26)).
        rewrite <- !Zle_Qle. nia.
      + apply (ratio_near ops Hacc); assumption.
      + apply (mul_near ops Hacc).
      + apply (ratio_near ops Hacc); assumption.
      + apply (mul_near ops Hacc).
      + apply (half_exact ops Hacc).
      + apply (add_near ops Hacc). }
  assert (Hfloor : float32e8.to_sint32 y3 = c * n).
  { rewrite to_sint32_nonneg.
    - apply Qfloor_unique. exact Hy3.
    - apply Qle_trans with (inject_Z (c * n)); [| apply Hy3].
      change 0%Q with (inject_Z 0). rewrite <- Zle_Qle. nia. }
  rewrite (to_sint32_trunc ops Hacc); [exact Hfloor |].
  rewrite Hfloor. unfold is_sint32. nia.
Qed.


End Scaled.


(** ** Operations of bounded precision *)

Lemma Qabs_inject_Z (z : Z) : Qabs (inject_Z z) = inject_Z (Z.abs z).
Proof. reflexivity. Qed.

(** Two fractions of one denominator are near when their numerators
    are. *)
Lemma near_scaled (u v : Z) (S : Q) :
  (0 < S)%Q -> Z.abs (u - v) * 2 ^ 30 <= Z.abs v ->
  near (inject_Z v / S) (inject_Z u / S).
Proof.
  intros HS H. unfold near.
  assert (E : (inject_Z u / S - inject_Z v / S == inject_Z (u - v) * / S)%Q).
  { unfold Z.sub. rewrite inject_Z_plus, inject_Z_opp. field. lra. }
  rewrite E. unfold Qdiv. rewrite !Qabs_Qmult, !Qabs_inject_Z.
  assert (HI : (0 < / S)%Q) by (apply Qinv_lt_0_compat; exact HS).
  rewrite (Qabs_pos (/ S)) by lra.
  rewrite Qmult_assoc. apply Qmult_le_compat_r; [| lra].
  rewrite Zle_Qle in H. rewrite inject_Z_mult in H.
  change (inject_Z (2 ^ 30)) with 1073741824%Q in H.
  unfold eps. lra.
Qed.

(** What is cut off is less than one unit of a mantissa that is at
    least 2^30. *)
Lemma cut_mantissa (n d a b : Z) :
  0 < d -> 0 <= a -> 0 <= b ->
  b - a = Z.log2 (Z.abs n) - Z.log2 d - 31 ->
  Z.abs (Z.quot (n * 2 ^ a) (d * 2 ^ b) * (d * 2 ^ b) - n * 2 ^ a) * 2 ^ 30
  <= Z.abs (n * 2 ^ a).
Proof.
  intros Hd Ha Hb He.
  assert (Hpa : 0 < 2 ^ a) by (apply Z.pow_pos_nonneg; lia).
  assert (Hpb : 0 < 2 ^ b) by (apply Z.pow_pos_nonneg; lia).
  assert (HD : 0 < d * 2 ^ b) by nia.
  destruct (Z.eq_dec n 0) as [-> | Hn].
  - rewrite Z.mul_0_l. cbn. lia.
  - pose proof (Z.quot_rem' (n * 2 ^ a) (d * 2 ^ b)) as Hqr.
    pose proof (Z.rem_bound_abs (n * 2 ^ a) (d * 2 ^ b) ltac:(lia)) as Hr.
    assert (Hrem : Z.quot (n * 2 ^ a) (d * 2 ^ b) * (d * 2 ^ b) - n * 2 ^ a
                   = - Z.rem (n * 2 ^ a) (d * 2 ^ b)) by lia.
    rewrite Hrem, Z.abs_opp.
    rewrite (Z.abs_eq (d * 2 ^ b)) in Hr by lia.
    assert (Hln : 0 < Z.abs n) by lia.
    destruct (Z.log2_spec (Z.abs n) Hln) as [Hn1 _].
    destruct (Z.log2_spec d Hd) as [_ Hd2].
    pose proof (Z.log2_nonneg (Z.abs n)) as Hl1.
    pose proof (Z.log2_nonneg d) as Hl2.
    assert (Hkey : 2 ^ 30 * (d * 2 ^ b) <= Z.abs (n * 2 ^ a)).
    { rewrite Z.abs_mul, (Z.abs_eq (2 ^ a)) by lia.
      assert (Hexp : 30 + Z.succ (Z.log2 d) + b = Z.log2 (Z.abs n) + a)
        by lia.
      assert (Hpow : 2 ^ 30 * 2 ^ Z.succ (Z.log2 d) * 2 ^ b
                     = 2 ^ Z.log2 (Z.abs n) * 2 ^ a).
      { rewrite <- !Z.pow_add_r by lia. f_equal. exact Hexp. }
      nia. }
    nia.
Qed.

Lemma cut_near (x : Q) : near x (cut x).
Proof.
  destruct x as [n p]. unfold cut. cbn [Qnum Qden].
  set (e := Z.log2 (Z.abs n) - Z.log2 (Zpos p) - 31).
  set (a := Z.max 0 (- e)). set (b := Z.max 0 e).
  assert (Ha : 0 <= a) by lia. assert (Hb : 0 <= b) by lia.
  assert (Hpa : 0 < 2 ^ a) by (apply Z.pow_pos_nonneg; lia).
  assert (Hpb : 0 < 2 ^ b) by (apply Z.pow_pos_nonneg; lia).
  set (m := Z.quot (n * 2 ^ a) (Zpos p * 2 ^ b)).
  pose proof (cut_mantissa n (Zpos p) a b ltac:(lia) Ha Hb ltac:(lia)) as Hm.
  fold m in Hm.
  assert (HS : (0 < inject_Z (Zpos p * 2 ^ a))%Q).
  { change 0%Q with (inject_Z 0). rewrite <- Zlt_Qlt. nia. }
  pose proof (near_scaled (m * (Zpos p * 2 ^ b)) (n * 2 ^ a) _ HS Hm)
    as Hnear.
  unfold near in *.
  assert (Hza : ~ (inject_Z (2 ^ a) == 0)%Q).
  { change 0%Q with (inject_Z 0). rewrite inject_Z_injective. lia. }
  assert (Hzp : ~ (inject_Z (Zpos p) == 0)%Q).
  { change 0%Q with (inject_Z 0). rewrite inject_Z_injective. lia. }
  assert (E1 : (n # p == inject_Z (n * 2 ^ a) / inject_Z (Zpos p * 2 ^ a))%Q).
  { rewrite (Qmake_Qdiv n p), !inject_Z_mult. field. split; assumption. }
  assert (E2 : (inject_Z (m * 2 ^ b) / inject_Z (2 ^ a)
                == inject_Z (m * (Zpos p * 2 ^ b))
                   / inject_Z (Zpos p * 2 ^ a))%Q).
  { rewrite !inject_Z_mult. field. split; assumption. }
  rewrite E1, E2. exact Hnear.
Qed.

(** The operations that cut to a mantissa of 31 or 32 bits are
    accurate. *)
Lemma cut_accurate : accurate cut_ops.
Proof.
  constructor; cbn.
  - intros n d _ _. apply cut_near.
  - intros n _. reflexivity.
  - intros x y _. apply cut_near.
  - intros x y _. apply cut_near.
  - reflexivity.
  - reflexivity.
Qed.

Lemma low_accurate : accurate low_ops.
Proof.
  assert (Hlow : forall x : Q, near x ((1 - eps) * x)).
  { intros x. unfold near.
    assert (E : ((1 - eps) * x - x == - eps * x)%Q) by ring.
    rewrite E, Qabs_Qmult. apply Qmult_le_compat_r; [| apply Qabs_nonneg].
    unfold eps. cbn. discriminate. }
  constructor; cbn.
  - intros n d _ _. apply Hlow.
  - intros n _. reflexivity.
  - intros x y _. apply Hlow.
  - intros x y _. apply Hlow.
  - reflexivity.
  - reflexivity.
Qed.





(** Beyond the bound the round trip can be lost.  With every result cut
    to a mantissa of 31 or 32 bits, speed 2^30 comes back one lower; with
    every result low by the whole of [eps], speed 2^27 does. *)
Lemma round_trip_lost_at_large_speed :
  v_to_speed (ops := cut_ops) 80
    (speed_to_v (ops := cut_ops) 80 1073741824) = 1073741823
  /\ v_to_speed (ops := low_ops) 80
       (speed_to_v (ops := low_ops) 80 134217728) = 134217727.
Proof. split; vm_compute; reflexivity. Qed.

End ConversionFacts.

(** ** Resistance coefficients by way type *)

Section AdverseFacts.

Import adverse_summary adverse_spec.

Lemma set_by_waytype_table (a : adverse_summary_t) (waytype : waytype_t) :
  (cf (set_by_waytype a waytype) == fst (fst (coefficient_table waytype))
   /\ fr (set_by_waytype a waytype) == snd (fst (coefficient_table waytype))
   /\ br (set_by_waytype a waytype) == snd (coefficient_table waytype))%Q
  /\ as_max_speed (set_by_waytype a waytype) = as_max_speed a.
Proof. destruct waytype; repeat split. Qed.

(** C6 (amended).  [set_by_waytype] selects cf, fr and br by way type
    as tabulated: air (1, 1/1000, 2), water (25, 1/1000, 1/10), track,
    narrow gauge and overhead lines (13, 51/10000, 1/2), tram and monorail
    (13, 51/10000, 1), maglev (10, 15/10000, 12/10) and every other way
    type, road among them, (252/100, 15/1000, 1); max_speed stays.  Any
    two of the classes rail, tram, road, water, air and maglev differ in
    at least one of the three coefficients. *)
Theorem set_by_waytype_distinct_triples
    (a : adverse_summary_t) (w1 w2 : waytype_t) :
  In w1 way_classes -> In w2 way_classes -> w1 <> w2 ->
  ~ same_coefficients (set_by_waytype a w1) (set_by_waytype a w2)
  /\ forall waytype,
       (cf (set_by_waytype a waytype)
          == fst (fst (coefficient_table waytype))
        /\ fr (set_by_waytype a waytype)
           == snd (fst (coefficient_table waytype))
        /\ br (set_by_waytype a waytype) == snd (coefficient_table waytype))%Q
       /\ as_max_speed (set_by_waytype a waytype) = as_max_speed a.
Proof.
  intros H1 H2 Hneq. split; [| apply set_by_waytype_table].
  unfold way_classes in H1, H2. cbn [In] in H1, H2.
  intros (Hcf & Hfr & Hbr).
  repeat match goal with
         | H : _ \/ _ |- _ => destruct H as [H | H]
         | H : False |- _ => destruct H
         end;
    subst; try (now apply Hneq);
    try (now (vm_compute in Hcf; discriminate Hcf));
    try (now (vm_compute in Hbr; discriminate Hbr)).
Qed.

Lemma set_by_waytype_distinct_triples_witness :
  ~ same_coefficients
      (set_by_waytype (mk_adverse_summary 0%Q 0%Q 0%Q 0) track_wt)
      (set_by_waytype (mk_adverse_summary 0%Q 0%Q 0%Q 0) tram_wt).
Proof.
  apply (set_by_waytype_distinct_triples (mk_adverse_summary 0%Q 0%Q 0%Q 0)
           track_wt tram_wt).
  - left. reflexivity.
  - right. left. reflexivity.
  - discriminate.
Defined.

(** C6 as written fails: the classes do not each have constants of their
    own.  Tram gets the air and rolling resistance of rail, water and
    air share their rolling resistance, tram and road their brake
    factor. *)
Lemma way_classes_share_constants :
  let a := mk_adverse_summary 0%Q 0%Q 0%Q 0 in
  In track_wt way_classes /\ In tram_wt way_classes /\ track_wt <> tram_wt
  /\ cf (set_by_waytype a tram_wt) = cf (set_by_waytype a track_wt)
  /\ fr (set_by_waytype a tram_wt) = fr (set_by_waytype a track_wt)
  /\ fr (set_by_waytype a water_wt) = fr (set_by_waytype a air_wt)
  /\ br (set_by_waytype a tram_wt) = br (set_by_waytype a road_wt).
Proof.
  cbn. repeat split; auto 6; discriminate.
Qed.

End AdverseFacts.

(** ** The force at a speed *)

Section ForceFacts.

Context {curves : convoy_curves}.
Context {S : Type}.

(** The override of [get_starting_force] the object dispatches to. *)
Variable starting : M S Z.

Lemma truncated_magnitude (speed : float32e8_t) :
  float32e8.to_sint32 (float32e8.abs speed) = Qfloor (Qabs speed).
Proof. apply to_sint32_nonneg. apply Qabs_nonneg. Qed.

Lemma truncated_magnitude_zero (speed : float32e8_t) :
  (Qfloor (Qabs speed) =? 0) = if Qlt_le_dec (Qabs speed) 1 then true
                               else false.
Proof.
  pose proof (Qabs_nonneg speed) as H0.
  pose proof (Qfloor_le (Qabs speed)) as Hle.
  pose proof (Qlt_floor (Qabs speed)) as Hlt.
  rewrite inject_Z_plus in Hlt. change (inject_Z 1) with 1%Q in Hlt.
  destruct (Qlt_le_dec (Qabs speed) 1) as [Hsmall | Hbig].
  - apply Z.eqb_eq.
    assert (H1 : (inject_Z (Qfloor (Qabs speed)) < inject_Z 1)%Q)
      by (change (inject_Z 1) with 1%Q; lra).
    assert (H2 : (inject_Z (-1) < inject_Z (Qfloor (Qabs speed)))%Q)
      by (change (inject_Z (-1)) with (-1 # 1)%Q; lra).
    rewrite <- Zlt_Qlt in H1. rewrite <- Zlt_Qlt in H2. lia.
  - apply Z.eqb_neq.
    assert (H1 : (inject_Z 0 < inject_Z (Qfloor (Qabs speed)))%Q)
      by (change (inject_Z 0) with 0%Q; lra).
    rewrite <- Zlt_Qlt in H1. lia.
Qed.

(** C10.  [get_force] returns [get_starting_force()] for every speed
    whose magnitude is below 1 m/s, where the truncated magnitude is
    zero, and for every other speed the per-speed lookup
    [get_force_summary] at the truncated magnitude, times 1000 in sint32;
    the sign of the speed does not matter: a speed, its negation and its
    magnitude give the same force. *)
Theorem get_force_by_truncated_magnitude (speed : float32e8_t) :
  convoy.get_force starting speed
  = (if Qlt_le_dec (Qabs speed) 1 then starting
     else ret (s32 (get_force_summary (Qfloor (Qabs speed)) * 1000)))
  /\ convoy.get_force starting (- speed)%Q = convoy.get_force starting speed
  /\ convoy.get_force starting (Qabs speed) = convoy.get_force starting speed.
Proof.
  split; [| split].
  - unfold convoy.get_force. rewrite truncated_magnitude.
    rewrite truncated_magnitude_zero.
    destruct (Qlt_le_dec (Qabs speed) 1); reflexivity.
  - unfold convoy.get_force, float32e8.abs.
    destruct speed as [n d]. unfold Qabs, Qopp. cbn [Qnum Qden].
    rewrite Z.abs_opp. reflexivity.
  - unfold convoy.get_force, float32e8.abs.
    destruct speed as [n d]. unfold Qabs. cbn [Qnum Qden].
    rewrite (Z.abs_eq (Z.abs n)) by apply Z.abs_nonneg. reflexivity.
Qed.

End ForceFacts.

(** ** Worked examples *)

Section Examples.

Import lazy_convoy example.

Example fresh_is_invalid : is_valid fresh = 0.
Proof. reflexivity. Qed.

Example invalidate_vehicle_keeps_freight :
  is_valid (invalidate_vehicle_summary
              (set_is_valid (fun _ => 63) fresh)) = 4
  /\ is_valid (invalidate_adverse_summary
                 (set_is_valid (fun _ => 63) fresh)) = 53.
Proof. split; reflexivity. Qed.

Example validate_twice_logs_once :
  invoked ((validate_vehicle_summary (hooks := one_vehicle) ;;
            validate_vehicle_summary (hooks := one_vehicle)) fresh)
  = [cd_vehicle_summary]
  /\ vehicle (object (validate_vehicle_summary (hooks := one_vehicle) fresh))
     = mk_vehicle_summary 8 1 40000 120.
Proof. split; reflexivity. Qed.

Example starting_force_is_cached :
  result (get_starting_force (curves := flat_curves) fresh) = 100000
  /\ valid (object (get_starting_force (curves := flat_curves) fresh))
       cd_starting_force = true.
Proof. split; reflexivity. Qed.

End Examples.

(** * Further properties of the code *)

(** ** vehicle_summary_t: order, concatenation, tiles *)

Section VehicleSummaryAlgebra.

Import vehicle_summary.

Lemma vehicle_summary_ext (a b : vehicle_summary_t) :
  vs_length a = vs_length b -> vs_tiles a = vs_tiles b ->
  vs_weight a = vs_weight b -> vs_max_speed a = vs_max_speed b -> a = b.
Proof. destruct a, b; cbn; congruence. Qed.

Lemma totals_permutation (l l' : list vehikel_besch_t) :
  Permutation l l' ->
  total_length l = total_length l'
  /\ total_gewicht l = total_gewicht l'
  /\ speed_cap l = speed_cap l'.
Proof.
  unfold total_length, total_gewicht, speed_cap.
  induction 1 as [| x l l' _ IH | x y l | l l' l'' _ IH1 _ IH2];
    cbn [map fold_right].
  - auto.
  - destruct IH as (-> & -> & ->). auto.
  - repeat split; lia.
  - destruct IH1 as (-> & -> & ->). exact IH2.
Qed.

Lemma add_all_fields (s : vehicle_summary_t) (l : list vehikel_besch_t) :
  vs_length (add_all s l) = u32 (total_length l)
  /\ vs_weight (add_all s l) = s32 (total_gewicht l)
  /\ vs_max_speed (add_all s l) = speed_cap l
  /\ vs_tiles (add_all s l) = 0.
Proof.
  unfold add_all.
  destruct (fold_add_vehicle l (clear s)) as (El & Ew & Em & Et);
    [cbn; unfold is_uint32; lia | cbn; unfold is_sint32; lia |].
  cbn [clear vs_length vs_weight vs_max_speed vs_tiles] in El, Ew, Em, Et.
  rewrite Z.add_0_l in El, Ew. auto.
Qed.

(** X1.  The summary does not depend on the order in which the vehicles
    are added, nor on what the summary held before [clear]: two lists
    that are permutations of each other give the same summary, wrap-around
    included. *)
Theorem add_all_permutation
    (s s' : vehicle_summary_t) (l l' : list vehikel_besch_t) :
  Permutation l l' -> add_all s l = add_all s' l'.
Proof.
  intros Hperm.
  destruct (totals_permutation l l' Hperm) as (Hl & Hw & Hm).
  destruct (add_all_fields s l) as (El & Ew & Em & Et).
  destruct (add_all_fields s' l') as (El' & Ew' & Em' & Et').
  apply vehicle_summary_ext; congruence.
Qed.

Lemma add_all_permutation_witness :
  add_all (mk_vehicle_summary 1 2 3 4)
    [mk_vehikel_besch 8 40 120; mk_vehikel_besch 6 20 100]
  = add_all (mk_vehicle_summary 0 0 0 0)
      [mk_vehikel_besch 6 20 100; mk_vehikel_besch 8 40 120].
Proof.
  apply (add_all_permutation (mk_vehicle_summary 1 2 3 4)
           (mk_vehicle_summary 0 0 0 0)).
  apply perm_swap.
Defined.

Lemma fold_min_from (m K : Z) (xs : list Z) :
  m <= K -> fold_right Z.min m xs = Z.min m (fold_right Z.min K xs).
Proof.
  intros H. induction xs as [|x xs IH]; cbn [fold_right]; lia.
Qed.

(** X2.  The summary of a concatenation comes from the summary of its
    first part and the totals of the second: the lengths and the weights
    add up, with the wrap-around of their types, and max_speed is the
    lesser of the first part's max_speed and the second part's speed cap;
    so more vehicles never raise max_speed. *)
Theorem add_all_app
    (s : vehicle_summary_t) (l1 l2 : list vehikel_besch_t) :
  vs_length (add_all s (l1 ++ l2))
  = u32 (vs_length (add_all s l1) + total_length l2)
  /\ vs_weight (add_all s (l1 ++ l2))
     = s32 (vs_weight (add_all s l1) + total_gewicht l2)
  /\ vs_max_speed (add_all s (l1 ++ l2))
     = Z.min (vs_max_speed (add_all s l1)) (speed_cap l2)
  /\ vs_max_speed (add_all s (l1 ++ l2)) <= vs_max_speed (add_all s l1).
Proof.
  destruct (add_all_fields s l1) as (El & Ew & Em & _).
  assert (Happ : add_all s (l1 ++ l2)
                 = fold_left add_vehicle l2 (add_all s l1)).
  { unfold add_all. apply fold_left_app. }
  destruct (fold_add_vehicle l2 (add_all s l1)) as (Fl & Fw & Fm & _).
  { rewrite El. apply u32_range. }
  { rewrite Ew. apply s32_range. }
  rewrite Happ, Fl, Fw, Fm.
  assert (Hcap : vs_max_speed (add_all s l1) <= KMH_SPEED_UNLIMITED).
  { rewrite Em. apply speed_cap_lower_bound. }
  rewrite (fold_min_from _ KMH_SPEED_UNLIMITED) by exact Hcap.
  fold (speed_cap l2). repeat split. lia.
Qed.

(** X3.  [update_summary] counts enough tiles: with a last vehicle no
    longer than the convoy and no uint32 overflow, the tiles cover the
    length, there is at least one tile, there is less than one tile and
    8 units of slack, and a last vehicle of 8 units or more gets no
    correction at all: the tiles are the length over
    OBJECT_OFFSET_STEPS, rounded up. *)
Theorem update_summary_tiles_cover
    (OBJECT_OFFSET_STEPS : Z) (s : vehicle_summary_t) (last : Z) :
  0 < OBJECT_OFFSET_STEPS ->
  is_uint8 last ->
  is_uint32 (vs_length s) ->
  last <= vs_length s ->
  vs_length s + 8 + OBJECT_OFFSET_STEPS - 1 < 2 ^ 32 ->
  let tiles := vs_tiles (update_summary OBJECT_OFFSET_STEPS s last) in
  vs_length s <= tiles * OBJECT_OFFSET_STEPS
  /\ 1 <= tiles
  /\ tiles * OBJECT_OFFSET_STEPS < vs_length s + 8 + OBJECT_OFFSET_STEPS
  /\ (8 <= last -> (tiles - 1) * OBJECT_OFFSET_STEPS < vs_length s).
Proof.
  intros Hpos Hlast Hlen Hle Hfit tiles.
  unfold is_uint8, is_uint32 in *.
  set (corrected := vs_length s + (Z.max 8 last - last)).
  assert (Et : tiles = (corrected + OBJECT_OFFSET_STEPS - 1)
                       / OBJECT_OFFSET_STEPS).
  { unfold tiles. cbn [update_summary vs_tiles]. fold corrected.
    rewrite u32_small by (unfold is_uint32, corrected; lia). reflexivity. }
  pose proof (Z.div_mod (corrected + OBJECT_OFFSET_STEPS - 1)
                OBJECT_OFFSET_STEPS ltac:(lia)) as Hdm.
  pose proof (Z.mod_pos_bound (corrected + OBJECT_OFFSET_STEPS - 1)
                OBJECT_OFFSET_STEPS Hpos) as Hb.
  rewrite <- Et in Hdm.
  assert (Hc : 8 <= corrected /\ vs_length s <= corrected
               /\ corrected <= vs_length s + 8) by (unfold corrected; lia).
  repeat split; nia.
Qed.

Lemma update_summary_tiles_cover_witness :
  let tiles :=
    vs_tiles (update_summary 16 (mk_vehicle_summary 20 0 60 100) 4) in
  20 <= tiles * 16 /\ 1 <= tiles.
Proof.
  intros tiles.
  destruct (update_summary_tiles_cover 16
              (mk_vehicle_summary 20 0 60 100) 4) as (H1 & H2 & _).
  - lia.
  - unfold is_uint8. lia.
  - unfold is_uint32. cbn. lia.
  - cbn. lia.
  - cbn. lia.
  - split; [exact H1 | exact H2].
Defined.

End VehicleSummaryAlgebra.

(** ** adverse_summary_t: selection *)

Section AdverseSelection.

Import adverse_summary.

(** X4.  The coefficients depend on the last way type selected alone:
    a second [set_by_waytype] replaces all three coefficients of the
    first; every way type selects strictly positive cf, fr and br; and
    the speed limit is not touched, so after [clear] it stays
    KMH_SPEED_UNLIMITED. *)
Theorem set_by_waytype_last_wins
    (a : adverse_summary_t) (w1 w2 : waytype_t) :
  set_by_waytype (set_by_waytype a w1) w2 = set_by_waytype a w2
  /\ (0 < cf (set_by_waytype a w2) /\ 0 < fr (set_by_waytype a w2)
      /\ 0 < br (set_by_waytype a w2))%Q
  /\ as_max_speed (set_by_waytype (clear a) w2) = KMH_SPEED_UNLIMITED.
Proof.
  split; [| split].
  - destruct w1, w2; reflexivity.
  - destruct w2; repeat split.
  - destruct w2; reflexivity.
Qed.

End AdverseSelection.

(** ** lazy_convoy_t: what its methods do to the cache *)

Section LazyCacheFacts.

Import lazy_convoy cache_spec lazy_spec lazy_ops.

Context {curves : convoy_curves}.
Context {hks : lazy_hooks}.
Context {whks : existing_hooks}.
Context {engine : convoy_engine}.

Lemma valid_clear (c : lazy_convoy_t) (m : Z) (d : convoy_detail_e) :
  0 <= m ->
  valid (set_is_valid (fun bits => Z.land bits (Z.lnot m)) c) d
  = valid c d && negb (Z.testbit m (cd_bit d)).
Proof.
  intros Hm. rewrite !valid_testbit. cbn [set_is_valid is_valid].
  rewrite testbit_clear by exact Hm.
  destruct (Z.testbit m (cd_bit d)); cbn [negb].
  - symmetry. apply andb_false_r.
  - symmetry. apply andb_true_r.
Qed.

Lemma valid_set_freight f (c : lazy_convoy_t) (d : convoy_detail_e) :
  valid (set_freight f c) d = valid c d.
Proof. reflexivity. Qed.

Lemma valid_set_starting_force x (c : lazy_convoy_t) (d : convoy_detail_e) :
  valid (set_starting_force x c) d = valid c d.
Proof. reflexivity. Qed.

Lemma valid_set_continuous_power x (c : lazy_convoy_t)
    (d : convoy_detail_e) :
  valid (set_continuous_power x c) d = valid c d.
Proof. reflexivity. Qed.

(** The two cached scalars, each as a case split on its bit. *)
Lemma get_starting_force_run (c : lazy_convoy_t) :
  get_starting_force c
  = if valid c cd_starting_force then (starting_force c, c, [])
    else (convoy.get_starting_force_base,
          set_starting_force convoy.get_starting_force_base
            (set_is_valid (fun bits => Z.lor bits (cd cd_starting_force)) c),
          []).
Proof.
  unfold get_starting_force, bind, gets, ret, mark_valid, modify.
  destruct (valid c cd_starting_force); reflexivity.
Qed.

Lemma get_continuous_power_run (c : lazy_convoy_t) :
  get_continuous_power c
  = if valid c cd_continuous_power then (continuous_power c, c, [])
    else
      let r := validate_vehicle_summary
                 (set_is_valid
                    (fun bits => Z.lor bits (cd cd_continuous_power)) c) in
      let power :=
        s32 (get_power_summary (vs_max_speed (vehicle (object r))) * 1000) in
      (power, set_continuous_power power (object r), invoked r).
Proof.
  unfold get_continuous_power, convoy.get_continuous_power_base,
    get_vehicle_summary, bind, gets, ret, mark_valid, modify, object, invoked.
  destruct (valid c cd_continuous_power); [reflexivity |].
  destruct (validate_vehicle_summary _) as [[[] c1] l1]. cbn [fst snd].
  rewrite !app_nil_r. reflexivity.
Qed.

Lemma getter_object {A : Type} (validate : M lazy_convoy_t unit)
    (field : lazy_convoy_t -> A) (c : lazy_convoy_t) :
  object ((validate ;; gets field) c) = object (validate c)
  /\ invoked ((validate ;; gets field) c) = invoked (validate c)
  /\ result ((validate ;; gets field) c) = field (object (validate c)).
Proof.
  unfold bind, gets, object, invoked, result.
  destruct (validate c) as [[[] c1] l1]. cbn [fst snd].
  rewrite app_nil_r. auto.
Qed.

(** The validity of every detail after one call, from the validity
    before it. *)
Lemma valid_after_op (o : lazy_op) (c : lazy_convoy_t)
    (d : convoy_detail_e) :
  valid (run_op o c) d
  = match o with
    | op_invalidate_vehicle_summary =>
        valid c d && negb (names cleared_by_vehicle d)
    | op_invalidate_adverse_summary =>
        valid c d && negb (names cleared_by_adverse d)
    | op_invalidate_freight_summary =>
        valid c d && negb (names [cd_freight_summary] d)
    | op_invalidate_starting_force =>
        valid c d && negb (names [cd_starting_force] d)
    | op_invalidate_continuous_power =>
        valid c d && negb (names [cd_continuous_power] d)
    | op_validate_vehicle_summary | op_get_vehicle_summary =>
        valid c d || names [cd_vehicle_summary] d
    | op_validate_adverse_summary | op_get_adverse_summary =>
        valid c d || names [cd_adverse_summary] d
    | op_validate_freight_summary | op_get_freight_summary =>
        valid c d || names [cd_freight_summary] d
    | op_get_starting_force => valid c d || names [cd_starting_force] d
    | op_get_continuous_power =>
        valid c d
        || (if valid c cd_continuous_power
            then names [cd_continuous_power] d
            else names [cd_continuous_power; cd_vehicle_summary] d)
    end.
Proof.
  destruct o; cbn [run_op];
    unfold get_vehicle_summary, get_adverse_summary, get_freight_summary;
    try (destruct (getter_object validate_vehicle_summary vehicle c)
           as (-> & _));
    try (destruct (getter_object validate_adverse_summary adverse c)
           as (-> & _));
    try (destruct (getter_object validate_freight_summary freight c)
           as (-> & _)).
  - transitivity (valid c d && negb (Z.testbit 59 (cd_bit d)));
      [exact (valid_clear c 59 d ltac:(lia)) | destruct d; reflexivity].
  - rewrite validate_vehicle_summary_run.
    destruct (valid c cd_vehicle_summary) eqn:E; cbn [object fst snd].
    + destruct d; cbn; rewrite ?orb_false_r, ?orb_true_r; auto.
    + rewrite valid_set_vehicle, valid_mark.
      destruct d; reflexivity.
  - rewrite validate_vehicle_summary_run.
    destruct (valid c cd_vehicle_summary) eqn:E; cbn [object fst snd].
    + destruct d; cbn; rewrite ?orb_false_r, ?orb_true_r; auto.
    + rewrite valid_set_vehicle, valid_mark.
      destruct d; reflexivity.
  - transitivity (valid c d && negb (Z.testbit 10 (cd_bit d)));
      [exact (valid_clear c 10 d ltac:(lia)) | destruct d; reflexivity].
  - rewrite validate_adverse_summary_run.
    destruct (valid c cd_adverse_summary) eqn:E; cbn [object fst snd].
    + destruct d; cbn; rewrite ?orb_false_r, ?orb_true_r; auto.
    + rewrite valid_set_adverse, valid_mark.
      destruct d; reflexivity.
  - rewrite validate_adverse_summary_run.
    destruct (valid c cd_adverse_summary) eqn:E; cbn [object fst snd].
    + destruct d; cbn; rewrite ?orb_false_r, ?orb_true_r; auto.
    + rewrite valid_set_adverse, valid_mark.
      destruct d; reflexivity.
  - transitivity (valid c d && negb (Z.testbit 4 (cd_bit d)));
      [exact (valid_clear c 4 d ltac:(lia)) | destruct d; reflexivity].
  - rewrite validate_freight_summary_run.
    destruct (valid c cd_freight_summary) eqn:E; cbn [object fst snd].
    + destruct d; cbn; rewrite ?orb_false_r, ?orb_true_r; auto.
    + rewrite valid_set_freight, valid_mark.
      destruct d; reflexivity.
  - rewrite validate_freight_summary_run.
    destruct (valid c cd_freight_summary) eqn:E; cbn [object fst snd].
    + destruct d; cbn; rewrite ?orb_false_r, ?orb_true_r; auto.
    + rewrite valid_set_freight, valid_mark.
      destruct d; reflexivity.
  - transitivity (valid c d && negb (Z.testbit 16 (cd_bit d)));
      [exact (valid_clear c 16 d ltac:(lia)) | destruct d; reflexivity].
  - rewrite get_starting_force_run.
    destruct (valid c cd_starting_force) eqn:E; cbn [object fst snd].
    + destruct d; cbn; rewrite ?orb_false_r, ?orb_true_r; auto.
    + rewrite valid_set_starting_force, valid_mark.
      destruct d; reflexivity.
  - transitivity (valid c d && negb (Z.testbit 32 (cd_bit d)));
      [exact (valid_clear c 32 d ltac:(lia)) | destruct d; reflexivity].
  - rewrite get_continuous_power_run.
    destruct (valid c cd_continuous_power) eqn:E.
    + cbn [object fst snd].
      destruct d; cbn; rewrite ?orb_false_r, ?orb_true_r; auto.
    + cbv zeta. cbn [object fst snd]. rewrite valid_set_continuous_power.
      rewrite validate_vehicle_summary_run, valid_mark.
      change (cd_bit cd_vehicle_summary =? cd_bit cd_continuous_power)
        with false.
      rewrite orb_false_r.
      destruct (valid c cd_vehicle_summary) eqn:Ev; cbn [fst snd].
      * cbn [object fst snd]. rewrite valid_mark.
        destruct d; cbn; rewrite ?Ev, ?orb_false_r, ?orb_true_r; auto.
      * cbn [object fst snd]. rewrite valid_set_vehicle, !valid_mark.
        destruct d; cbn; rewrite ?orb_false_r, ?orb_true_r; auto.
Qed.

Lemma below_64 (x : Z) :
  (forall i, 6 <= i -> Z.testbit x i = false) <-> 0 <= x < 64.
Proof.
  split.
  - intros Hhigh.
    assert (E : x = x mod 2 ^ 6).
    { apply Z.bits_inj'. intros i Hi.
      destruct (Z.lt_ge_cases i 6) as [Hlow | Hge].
      - rewrite Z.mod_pow2_bits_low by lia. reflexivity.
      - rewrite Z.mod_pow2_bits_high by lia. apply Hhigh. exact Hge. }
    pose proof (Z.mod_pos_bound x (2 ^ 6) ltac:(lia)) as Hb.
    change (2 ^ 6) with 64 in *. lia.
  - intros Hx i Hi.
    rewrite <- (Z.mod_small x (2 ^ 6)) by (change (2 ^ 6) with 64; lia).
    apply Z.mod_pow2_bits_high. lia.
Qed.

(** [is_valid] after one call: some bits cleared, then some set. *)
Lemma is_valid_after_op (o : lazy_op) (c : lazy_convoy_t) :
  exists clear set : Z,
    0 <= clear /\ 0 <= set < 64
    /\ is_valid (run_op o c)
       = Z.lor (Z.land (is_valid c) (Z.lnot clear)) set.
Proof.
  assert (Hsame : is_valid c = Z.lor (Z.land (is_valid c) (Z.lnot 0)) 0).
  { rewrite Z.lor_0_r. change (Z.lnot 0) with (-1).
    symmetry. apply Z.land_m1_r. }
  assert (Hset : forall m, Z.lor (is_valid c) m
                           = Z.lor (Z.land (is_valid c) (Z.lnot 0)) m).
  { intros m. change (Z.lnot 0) with (-1). rewrite Z.land_m1_r.
    reflexivity. }
  destruct o; cbn [run_op];
    unfold get_vehicle_summary, get_adverse_summary, get_freight_summary;
    try (destruct (getter_object validate_vehicle_summary vehicle c)
           as (-> & _));
    try (destruct (getter_object validate_adverse_summary adverse c)
           as (-> & _));
    try (destruct (getter_object validate_freight_summary freight c)
           as (-> & _));
    rewrite ?validate_vehicle_summary_run, ?validate_adverse_summary_run,
      ?validate_freight_summary_run, ?get_starting_force_run,
      ?get_continuous_power_run;
    try (exists 59, 0; repeat split; try lia;
         symmetry; apply Z.lor_0_r);
    try (exists 10, 0; repeat split; try lia;
         symmetry; apply Z.lor_0_r);
    try (exists 4, 0; repeat split; try lia;
         symmetry; apply Z.lor_0_r);
    try (exists 16, 0; repeat split; try lia;
         symmetry; apply Z.lor_0_r);
    try (exists 32, 0; repeat split; try lia;
         symmetry; apply Z.lor_0_r).
  - destruct (valid c cd_vehicle_summary); cbn [object fst snd].
    + exists 0, 0. repeat split; try lia; try exact Hsame.
    + exists 0, 1. repeat split; try lia; try apply Hset.
  - destruct (valid c cd_vehicle_summary); cbn [object fst snd].
    + exists 0, 0. repeat split; try lia; try exact Hsame.
    + exists 0, 1. repeat split; try lia; try apply Hset.
  - destruct (valid c cd_adverse_summary); cbn [object fst snd].
    + exists 0, 0. repeat split; try lia; try exact Hsame.
    + exists 0, 2. repeat split; try lia; try apply Hset.
  - destruct (valid c cd_adverse_summary); cbn [object fst snd].
    + exists 0, 0. repeat split; try lia; try exact Hsame.
    + exists 0, 2. repeat split; try lia; try apply Hset.
  - destruct (valid c cd_freight_summary); cbn [object fst snd].
    + exists 0, 0. repeat split; try lia; try exact Hsame.
    + exists 0, 4. repeat split; try lia; try apply Hset.
  - destruct (valid c cd_freight_summary); cbn [object fst snd].
    + exists 0, 0. repeat split; try lia; try exact Hsame.
    + exists 0, 4. repeat split; try lia; try apply Hset.
  - destruct (valid c cd_starting_force); cbn [object fst snd].
    + exists 0, 0. repeat split; try lia; try exact Hsame.
    + exists 0, 16. repeat split; try lia; try apply Hset.
  - destruct (valid c cd_continuous_power).
    + cbn [object fst snd]. exists 0, 0. repeat split; try lia; try exact Hsame.
    + cbv zeta. cbn [object fst snd]. rewrite validate_vehicle_summary_run.
      destruct (valid _ cd_vehicle_summary); cbn [fst snd].
      * exists 0, 32. repeat split; try lia; try apply Hset.
      * exists 0, 33. repeat split; try lia.
        cbn [object fst snd set_continuous_power set_vehicle set_is_valid
             is_valid].
        rewrite <- Hset, <- Z.lor_assoc. reflexivity.
Qed.

Lemma run_op_keeps_bits (o : lazy_op) (c : lazy_convoy_t) :
  only_detail_bits c -> only_detail_bits (run_op o c).
Proof.
  unfold only_detail_bits. intros Hc.
  destruct (is_valid_after_op o c) as (clear & set & Hclear & Hset & ->).
  apply below_64. intros i Hi.
  rewrite Z.lor_spec, Z.land_spec.
  rewrite (proj2 (below_64 (is_valid c)) Hc i Hi).
  rewrite (proj2 (below_64 set) Hset i Hi). reflexivity.
Qed.

Lemma run_op_keeps_power_has_vehicle (o : lazy_op) (c : lazy_convoy_t) :
  power_has_vehicle c = true -> power_has_vehicle (run_op o c) = true.
Proof.
  unfold power_has_vehicle. rewrite !valid_after_op.
  destruct (valid c cd_continuous_power), (valid c cd_vehicle_summary);
    destruct o; cbn; auto.
Qed.

(** X5.  Whatever sequence of invalidations, validity checks and getters
    is called on a newly constructed lazy convoy, [is_valid] holds the
    six validity bits and nothing else (0 <= is_valid < 64), and the
    continuous power is never marked valid while the vehicle summary,
    whose max_speed it is computed from, is invalid. *)
Theorem run_ops_keep_cache_consistent
    (ops : list lazy_op) (raw : lazy_convoy_t) :
  only_detail_bits (run_ops ops raw)
  /\ power_has_vehicle (run_ops ops raw) = true.
Proof.
  unfold run_ops.
  assert (H0 : only_detail_bits (constructor raw)
               /\ power_has_vehicle (constructor raw) = true).
  { split; [unfold only_detail_bits; cbn; lia | reflexivity]. }
  revert H0. generalize (constructor raw).
  induction ops as [|o ops IH]; intros c [Hb Hp]; cbn [fold_left].
  - split; assumption.
  - apply IH. split.
    + apply run_op_keeps_bits. exact Hb.
    + apply run_op_keeps_power_has_vehicle. exact Hp.
Qed.

(** X6.  An invalidation forces the next check to recompute: after
    [invalidate_vehicle_summary], [invalidate_adverse_summary] or
    [invalidate_freight_summary] the matching check invokes its hook
    once, on the summary cached so far; and after
    [invalidate_vehicle_summary] the chain of the queries recomputes the
    vehicle summary and then the adverse summary, whatever was valid
    before. *)
Theorem invalidation_forces_recomputation (c : lazy_convoy_t) :
  validate_vehicle_summary (invalidate_vehicle_summary c)
  = (tt,
     set_vehicle update_vehicle_summary
       (set_is_valid (fun bits => Z.lor bits (cd cd_vehicle_summary))
          (invalidate_vehicle_summary c)),
     [cd_vehicle_summary])
  /\ validate_adverse_summary (invalidate_adverse_summary c)
     = (tt,
        set_adverse update_adverse_summary
          (set_is_valid (fun bits => Z.lor bits (cd cd_adverse_summary))
             (invalidate_adverse_summary c)),
        [cd_adverse_summary])
  /\ validate_freight_summary (invalidate_freight_summary c)
     = (tt,
        set_freight update_freight_summary
          (set_is_valid (fun bits => Z.lor bits (cd cd_freight_summary))
             (invalidate_freight_summary c)),
        [cd_freight_summary])
  /\ invoked (validate_chain (invalidate_vehicle_summary c))
     = [cd_vehicle_summary; cd_adverse_summary]
  /\ vehicle (object (validate_chain (invalidate_vehicle_summary c)))
     = update_vehicle_summary (vehicle c)
  /\ adverse (object (validate_chain (invalidate_vehicle_summary c)))
     = update_adverse_summary (adverse c).
Proof.
  assert (Hv : forall d, valid (invalidate_vehicle_summary c) d
                         = valid c d && negb (names cleared_by_vehicle d)).
  { intros d. apply (valid_after_op op_invalidate_vehicle_summary). }
  assert (Ha : forall d, valid (invalidate_adverse_summary c) d
                         = valid c d && negb (names cleared_by_adverse d)).
  { intros d. apply (valid_after_op op_invalidate_adverse_summary). }
  assert (Hf : forall d, valid (invalidate_freight_summary c) d
                         = valid c d && negb (names [cd_freight_summary] d)).
  { intros d. apply (valid_after_op op_invalidate_freight_summary). }
  split; [| split; [| split]].
  - rewrite validate_vehicle_summary_run, Hv.
    change (names cleared_by_vehicle cd_vehicle_summary) with true.
    rewrite andb_false_r. reflexivity.
  - rewrite validate_adverse_summary_run, Ha.
    change (names cleared_by_adverse cd_adverse_summary) with true.
    rewrite andb_false_r. reflexivity.
  - rewrite validate_freight_summary_run, Hf.
    change (names [cd_freight_summary] cd_freight_summary) with true.
    rewrite andb_false_r. reflexivity.
  - destruct (validate_chain_run (invalidate_vehicle_summary c))
      as (_ & _ & Hlog & Hveh & Hadv).
    rewrite Hlog, Hveh, Hadv, !Hv.
    change (names cleared_by_vehicle cd_vehicle_summary) with true.
    change (names cleared_by_vehicle cd_adverse_summary) with true.
    rewrite !andb_false_r. repeat split.
Qed.

End LazyCacheFacts.

(** ** lazy_convoy_t: invalidations, cached scalars, the live convoy *)

Section LazyCacheAlgebra.

Import lazy_convoy cache_spec lazy_spec.

Context {curves : convoy_curves}.
Context {hks : lazy_hooks}.
Context {whks : existing_hooks}.
Context {engine : convoy_engine}.

Lemma clear_twice (c : lazy_convoy_t) (m1 m2 : Z) :
  set_is_valid (fun bits => Z.land bits m2)
    (set_is_valid (fun bits => Z.land bits m1) c)
  = set_is_valid (fun bits => Z.land bits (Z.land m1 m2)) c.
Proof.
  unfold set_is_valid. cbn. rewrite Z.land_assoc. reflexivity.
Qed.

(** X7.  [invalidate_vehicle_summary] subsumes the narrower
    invalidations: calling [invalidate_adverse_summary],
    [invalidate_starting_force] or [invalidate_continuous_power] before
    it or after it gives what [invalidate_vehicle_summary] alone gives;
    each of the five invalidations is idempotent;
    [invalidate_freight_summary] commutes with
    [invalidate_vehicle_summary]; and each of the three invalidations of
    a single detail clears the validity of that detail, leaves the
    validity of the five others as it is and touches no cached value. *)
Theorem invalidate_vehicle_subsumes (c : lazy_convoy_t) :
  (invalidate_vehicle_summary (invalidate_adverse_summary c)
   = invalidate_vehicle_summary c
   /\ invalidate_vehicle_summary (invalidate_starting_force c)
      = invalidate_vehicle_summary c
   /\ invalidate_vehicle_summary (invalidate_continuous_power c)
      = invalidate_vehicle_summary c)
  /\ (invalidate_adverse_summary (invalidate_vehicle_summary c)
      = invalidate_vehicle_summary c
      /\ invalidate_starting_force (invalidate_vehicle_summary c)
         = invalidate_vehicle_summary c
      /\ invalidate_continuous_power (invalidate_vehicle_summary c)
         = invalidate_vehicle_summary c)
  /\ (invalidate_vehicle_summary (invalidate_vehicle_summary c)
      = invalidate_vehicle_summary c
      /\ invalidate_adverse_summary (invalidate_adverse_summary c)
         = invalidate_adverse_summary c
      /\ invalidate_freight_summary (invalidate_freight_summary c)
         = invalidate_freight_summary c
      /\ invalidate_starting_force (invalidate_starting_force c)
         = invalidate_starting_force c
      /\ invalidate_continuous_power (invalidate_continuous_power c)
         = invalidate_continuous_power c)
  /\ invalidate_freight_summary (invalidate_vehicle_summary c)
     = invalidate_vehicle_summary (invalidate_freight_summary c)
  /\ (valid_view (invalidate_freight_summary c)
      = [valid c cd_vehicle_summary; valid c cd_adverse_summary; false;
         valid c cd_weight_summary; valid c cd_starting_force;
         valid c cd_continuous_power]
      /\ same_cache c (invalidate_freight_summary c))
  /\ (valid_view (invalidate_starting_force c)
      = [valid c cd_vehicle_summary; valid c cd_adverse_summary;
         valid c cd_freight_summary; valid c cd_weight_summary; false;
         valid c cd_continuous_power]
      /\ same_cache c (invalidate_starting_force c))
  /\ (valid_view (invalidate_continuous_power c)
      = [valid c cd_vehicle_summary; valid c cd_adverse_summary;
         valid c cd_freight_summary; valid c cd_weight_summary;
         valid c cd_starting_force; false]
      /\ same_cache c (invalidate_continuous_power c)).
Proof.
  assert (Hview : forall o,
    valid_view (lazy_ops.run_op o c)
    = map (fun d => valid (lazy_ops.run_op o c) d)
        [cd_vehicle_summary; cd_adverse_summary; cd_freight_summary;
         cd_weight_summary; cd_starting_force; cd_continuous_power])
    by reflexivity.
  split; [| split; [| split; [| split; [| split; [| split]]]]].
  - unfold invalidate_vehicle_summary, invalidate_adverse_summary,
      invalidate_starting_force, invalidate_continuous_power.
    rewrite !clear_twice. repeat split.
  - unfold invalidate_vehicle_summary, invalidate_adverse_summary,
      invalidate_starting_force, invalidate_continuous_power.
    rewrite !clear_twice. repeat split.
  - unfold invalidate_vehicle_summary, invalidate_adverse_summary,
      invalidate_starting_force, invalidate_continuous_power,
      invalidate_freight_summary.
    rewrite !clear_twice. repeat split.
  - unfold invalidate_vehicle_summary, invalidate_freight_summary.
    rewrite !clear_twice. reflexivity.
  - split; [| repeat split].
    change (invalidate_freight_summary c)
      with (lazy_ops.run_op lazy_ops.op_invalidate_freight_summary c).
    rewrite Hview. cbn [map]. rewrite !valid_after_op.
    cbn. rewrite ?andb_true_r, ?andb_false_r. reflexivity.
  - split; [| repeat split].
    change (invalidate_starting_force c)
      with (lazy_ops.run_op lazy_ops.op_invalidate_starting_force c).
    rewrite Hview. cbn [map]. rewrite !valid_after_op.
    cbn. rewrite ?andb_true_r, ?andb_false_r. reflexivity.
  - split; [| repeat split].
    change (invalidate_continuous_power c)
      with (lazy_ops.run_op lazy_ops.op_invalidate_continuous_power c).
    rewrite Hview. cbn [map]. rewrite !valid_after_op.
    cbn. rewrite ?andb_true_r, ?andb_false_r. reflexivity.
Qed.

(** X8.  A validity check touches its own detail only: it leaves the
    other cached members and the validity of every other detail as they
    are, and when its bit is set it returns the object as it is. *)
Theorem validity_checks_touch_own_detail (c : lazy_convoy_t) :
  (adverse (object (validate_vehicle_summary c)) = adverse c
   /\ freight (object (validate_vehicle_summary c)) = freight c
   /\ starting_force (object (validate_vehicle_summary c))
      = starting_force c
   /\ continuous_power (object (validate_vehicle_summary c))
      = continuous_power c
   /\ tl (valid_view (object (validate_vehicle_summary c)))
      = tl (valid_view c))
  /\ (vehicle (object (validate_adverse_summary c)) = vehicle c
      /\ freight (object (validate_adverse_summary c)) = freight c
      /\ starting_force (object (validate_adverse_summary c))
         = starting_force c
      /\ continuous_power (object (validate_adverse_summary c))
         = continuous_power c
      /\ hd true (valid_view (object (validate_adverse_summary c)))
         = hd true (valid_view c)
      /\ tl (tl (valid_view (object (validate_adverse_summary c))))
         = tl (tl (valid_view c)))
  /\ (vehicle (object (validate_freight_summary c)) = vehicle c
      /\ adverse (object (validate_freight_summary c)) = adverse c
      /\ starting_force (object (validate_freight_summary c))
         = starting_force c
      /\ continuous_power (object (validate_freight_summary c))
         = continuous_power c
      /\ firstn 2 (valid_view (object (validate_freight_summary c)))
         = firstn 2 (valid_view c)
      /\ skipn 3 (valid_view (object (validate_freight_summary c)))
         = skipn 3 (valid_view c)).
Proof.
  unfold valid_view. cbn [map tl hd firstn skipn].
  change (object (validate_vehicle_summary c))
    with (lazy_ops.run_op lazy_ops.op_validate_vehicle_summary c).
  change (object (validate_adverse_summary c))
    with (lazy_ops.run_op lazy_ops.op_validate_adverse_summary c).
  change (object (validate_freight_summary c))
    with (lazy_ops.run_op lazy_ops.op_validate_freight_summary c).
  rewrite !valid_after_op. cbn [lazy_ops.run_op].
  rewrite validate_vehicle_summary_run, validate_adverse_summary_run,
    validate_freight_summary_run.
  destruct (valid c cd_vehicle_summary), (valid c cd_adverse_summary),
    (valid c cd_freight_summary);
    cbn; rewrite ?orb_false_r; repeat split.
Qed.

(** X9.  The starting force is computed once and then served from the
    cache.  With the bit clear, [get_starting_force] returns
    get_force_summary(0) * 1000, stores it in [starting_force] and sets
    the bit, leaving the other cached values and the validity of the
    other details as they are; with the bit set it returns the stored
    number and leaves the object as it is.  It invokes no update hook.
    A call that follows returns the stored number without reading the
    force curve: it gives the same answer whatever curve the convoy has
    by then.  After [invalidate_starting_force] or
    [invalidate_vehicle_summary] the force is read from the curve
    again. *)
Theorem starting_force_is_computed_once (c : lazy_convoy_t) :
  result (get_starting_force c)
  = (if valid c cd_starting_force then starting_force c
     else s32 (get_force_summary 0 * 1000))
  /\ invoked (get_starting_force c) = []
  /\ (if valid c cd_starting_force
      then object (get_starting_force c) = c
      else
        starting_force (object (get_starting_force c))
        = s32 (get_force_summary 0 * 1000)
        /\ vehicle (object (get_starting_force c)) = vehicle c
        /\ adverse (object (get_starting_force c)) = adverse c
        /\ freight (object (get_starting_force c)) = freight c
        /\ continuous_power (object (get_starting_force c))
           = continuous_power c
        /\ valid_view (object (get_starting_force c))
           = [valid c cd_vehicle_summary; valid c cd_adverse_summary;
              valid c cd_freight_summary; valid c cd_weight_summary; true;
              valid c cd_continuous_power])
  /\ valid (object (get_starting_force c)) cd_starting_force = true
  /\ starting_force (object (get_starting_force c))
     = result (get_starting_force c)
  /\ (let first := get_starting_force c in
      forall later : convoy_curves,
        get_starting_force (curves := later) (object first)
        = (result first, object first, []))
  /\ result (get_starting_force (invalidate_starting_force c))
     = s32 (get_force_summary 0 * 1000)
  /\ result (get_starting_force (invalidate_vehicle_summary c))
     = s32 (get_force_summary 0 * 1000).
Proof.
  assert (Hi : valid (invalidate_starting_force c) cd_starting_force
               = false).
  { rewrite (valid_after_op lazy_ops.op_invalidate_starting_force).
    apply andb_false_r. }
  assert (Hv : valid (invalidate_vehicle_summary c) cd_starting_force
               = false).
  { rewrite (valid_after_op lazy_ops.op_invalidate_vehicle_summary).
    apply andb_false_r. }
  assert (Hlater : forall (later : convoy_curves) (c0 : lazy_convoy_t),
    valid c0 cd_starting_force = true ->
    get_starting_force (curves := later) c0 = (starting_force c0, c0, [])).
  { intros later c0 E0.
    rewrite (get_starting_force_run (curves := later)), E0. reflexivity. }
  cbv zeta.
  rewrite (get_starting_force_run (invalidate_starting_force c)), Hi.
  rewrite (get_starting_force_run (invalidate_vehicle_summary c)), Hv.
  rewrite (get_starting_force_run c).
  destruct (valid c cd_starting_force) eqn:E; cbn [result object fst snd].
  - rewrite E. repeat split. intros later. apply Hlater. exact E.
  - unfold valid_view. cbn [map].
    rewrite !valid_set_starting_force, !valid_mark.
    cbn [set_starting_force set_is_valid starting_force vehicle adverse
         freight continuous_power].
    split; [reflexivity |]. split; [reflexivity |].
    split; [| split; [| split; [| split]]].
    + repeat split. cbn. rewrite !orb_false_r, orb_true_r. reflexivity.
    + cbn. apply orb_true_r.
    + reflexivity.
    + intros later. rewrite Hlater; [reflexivity |].
      rewrite valid_set_starting_force. apply valid_mark_same.
    + split; reflexivity.
Qed.

(** X10.  The continuous power is computed from a valid vehicle
    summary: with its bit clear, [get_continuous_power] first runs the
    check of the vehicle summary, then returns
    get_power_summary(max_speed) * 1000 for the max_speed of the checked
    summary and caches it, leaving both bits set; with its bit set it
    returns the cached number and invokes nothing.  After
    [invalidate_vehicle_summary] it recomputes the vehicle summary, once,
    and reads the power at the new max_speed. *)
Theorem continuous_power_reads_valid_vehicle (c : lazy_convoy_t) :
  (if valid c cd_continuous_power
   then get_continuous_power c = (continuous_power c, c, [])
   else
     result (get_continuous_power c)
     = s32 (get_power_summary
              (vs_max_speed
                 (if valid c cd_vehicle_summary then vehicle c
                  else update_vehicle_summary (vehicle c))) * 1000)
     /\ invoked (get_continuous_power c)
        = (if valid c cd_vehicle_summary then [] else [cd_vehicle_summary])
     /\ continuous_power (object (get_continuous_power c))
        = result (get_continuous_power c))
  /\ valid (object (get_continuous_power c)) cd_continuous_power = true
  /\ result (get_continuous_power (invalidate_vehicle_summary c))
     = s32 (get_power_summary
              (vs_max_speed (update_vehicle_summary (vehicle c))) * 1000)
  /\ invoked (get_continuous_power (invalidate_vehicle_summary c))
     = [cd_vehicle_summary].
Proof.
  assert (Hgen : forall c0, valid c0 cd_continuous_power = false ->
    result (get_continuous_power c0)
    = s32 (get_power_summary
             (vs_max_speed
                (if valid c0 cd_vehicle_summary then vehicle c0
                 else update_vehicle_summary (vehicle c0))) * 1000)
    /\ invoked (get_continuous_power c0)
       = (if valid c0 cd_vehicle_summary then [] else [cd_vehicle_summary])
    /\ continuous_power (object (get_continuous_power c0))
       = result (get_continuous_power c0)).
  { intros c0 E0. rewrite get_continuous_power_run, E0. cbv zeta.
    rewrite validate_vehicle_summary_run, valid_mark.
    change (cd_bit cd_vehicle_summary =? cd_bit cd_continuous_power)
      with false.
    rewrite orb_false_r.
    destruct (valid c0 cd_vehicle_summary); cbn; repeat split. }
  assert (Hp : valid (invalidate_vehicle_summary c) cd_continuous_power
               = false).
  { rewrite (valid_after_op lazy_ops.op_invalidate_vehicle_summary).
    apply andb_false_r. }
  assert (Hv : valid (invalidate_vehicle_summary c) cd_vehicle_summary
               = false).
  { rewrite (valid_after_op lazy_ops.op_invalidate_vehicle_summary).
    apply andb_false_r. }
  split; [| split; [| split]].
  - destruct (valid c cd_continuous_power) eqn:E.
    + rewrite get_continuous_power_run, E. reflexivity.
    + apply Hgen. exact E.
  - change (object (get_continuous_power c))
      with (lazy_ops.run_op lazy_ops.op_get_continuous_power c).
    rewrite valid_after_op.
    destruct (valid c cd_continuous_power); reflexivity.
  - destruct (Hgen _ Hp) as (-> & _). rewrite Hv. reflexivity.
  - destruct (Hgen _ Hp) as (_ & -> & _). rewrite Hv. reflexivity.
Qed.

(** X11.  With the starting force not cached, the lazy convoy's
    [get_force] follows one formula at every speed, standstill
    included: get_force_summary at the truncated magnitude of the speed,
    times 1000. *)
Theorem lazy_get_force_uncached (speed : float32e8_t) (c : lazy_convoy_t) :
  result (get_force speed (invalidate_starting_force c))
  = s32 (get_force_summary (Qfloor (Qabs speed)) * 1000).
Proof.
  unfold get_force, convoy.get_force.
  rewrite truncated_magnitude.
  destruct (Z.eqb_spec (Qfloor (Qabs speed)) 0) as [-> | _].
  - rewrite get_starting_force_run.
    rewrite (valid_after_op lazy_ops.op_invalidate_starting_force).
    rewrite andb_false_r. reflexivity.
  - reflexivity.
Qed.

End LazyCacheAlgebra.

(** ** existing_convoy_t: construction and movement *)

Section ExistingConvoyFacts.

Import lazy_convoy cache_spec lazy_spec.

Context {curves : convoy_curves}.
Context {hks : lazy_hooks}.
Context {whks : existing_hooks}.
Context {engine : convoy_engine}.

Lemma existing_constructor_run (raw : existing_convoy_t) :
  existing_convoy.constructor raw
  = ({| as_lazy :=
          set_adverse update_adverse_summary
            (set_is_valid (fun bits => Z.lor bits (cd cd_adverse_summary))
               (set_vehicle update_vehicle_summary
                  (set_is_valid
                     (fun bits => Z.lor bits (cd cd_vehicle_summary))
                     (constructor (as_lazy raw)))));
        weight := weight raw |},
     [cd_vehicle_summary; cd_adverse_summary]).
Proof.
  unfold existing_convoy.constructor, existing_convoy.inherited, lift, bind,
    object, invoked.
  cbn [existing_convoy.set_lazy as_lazy weight].
  rewrite validate_vehicle_summary_run.
  change (valid (constructor (as_lazy raw)) cd_vehicle_summary) with false.
  cbv iota. cbn [existing_convoy.set_lazy as_lazy weight].
  rewrite validate_adverse_summary_run.
  reflexivity.
Qed.

(** X12.  The constructor of [existing_convoy_t] validates eagerly: it
    invokes the hook of the vehicle summary and then the hook of the
    adverse summary, once each, whatever the storage held; afterwards
    exactly these two details are valid ([is_valid] = 3), the summaries
    are the hooks' results, and the weight is not computed yet. *)
Theorem existing_constructor_validates (raw : existing_convoy_t) :
  snd (existing_convoy.constructor raw)
  = [cd_vehicle_summary; cd_adverse_summary]
  /\ is_valid (as_lazy (fst (existing_convoy.constructor raw))) = 3
  /\ valid_view (as_lazy (fst (existing_convoy.constructor raw)))
     = [true; true; false; false; false; false]
  /\ vehicle (as_lazy (fst (existing_convoy.constructor raw)))
     = update_vehicle_summary (vehicle (as_lazy raw))
  /\ adverse (as_lazy (fst (existing_convoy.constructor raw)))
     = update_adverse_summary (adverse (as_lazy raw))
  /\ weight (fst (existing_convoy.constructor raw)) = weight raw.
Proof.
  rewrite existing_constructor_run. repeat split.
Qed.

(** X13.  [existing_convoy_t::calc_move] on a newly constructed live
    convoy hands [convoy_t::calc_move] an object whose vehicle, adverse
    and weight details are the valid ones, together with the weight the
    weight hook has just computed, and it has invoked the weight hook
    once before; on any live convoy it leaves the validity of the vehicle
    and adverse summaries as it finds it. *)
Theorem existing_calc_move_after_construction
    (raw : existing_convoy_t)
    (delta_t : Z) (simtime_factor : float32e8_t)
    (akt_speed_soll next_speed_limit steps_til_limit steps_til_brake : Z)
    (akt_speed sp_soll : Z) :
  let c := fst (existing_convoy.constructor raw) in
  let v := existing_convoy.validate_weight_summary c in
  existing_convoy.calc_move delta_t simtime_factor akt_speed_soll
    next_speed_limit steps_til_limit steps_til_brake akt_speed sp_soll c
  = (let r := convoy_calc_move delta_t simtime_factor
                (update_weight_summary (weight raw))
                akt_speed_soll next_speed_limit steps_til_limit
                steps_til_brake akt_speed sp_soll (as_lazy (object v)) in
     (result r, existing_convoy.set_lazy (object v) (object r),
      cd_weight_summary :: invoked r))
  /\ valid_view (as_lazy (object v))
     = [true; true; false; true; false; false]
  /\ forall c' : existing_convoy_t,
       firstn 2 (valid_view
                   (as_lazy
                      (object (existing_convoy.validate_weight_summary c'))))
       = firstn 2 (valid_view (as_lazy c')).
Proof.
  intros c v. unfold v, c. rewrite existing_constructor_run. cbn [fst].
  split; [| split].
  - rewrite existing_calc_move_run, validate_weight_summary_run.
    reflexivity.
  - rewrite validate_weight_summary_run. reflexivity.
  - intros c'. rewrite validate_weight_summary_run.
    destruct (valid (as_lazy c') cd_weight_summary); [reflexivity |].
    cbn [object fst snd existing_convoy.set_weight
         existing_convoy.set_lazy as_lazy].
    unfold valid_view. cbn [map firstn]. rewrite !valid_mark.
    cbn. rewrite !orb_false_r. reflexivity.
Qed.

(** X14.  Invalidating the vehicle or the adverse summary of a live
    convoy reaches its weight summary: the next
    [validate_weight_summary] invokes the weight hook, as it does after
    [invalidate_weight_summary]; that check recomputes the weight only,
    it does not validate the summary that was invalidated. *)
Theorem weight_follows_invalidation (c : existing_convoy_t) :
  let after_vehicle :=
    existing_convoy.set_lazy c (invalidate_vehicle_summary (as_lazy c)) in
  let after_adverse :=
    existing_convoy.set_lazy c (invalidate_adverse_summary (as_lazy c)) in
  invoked (existing_convoy.validate_weight_summary after_vehicle)
  = [cd_weight_summary]
  /\ invoked (existing_convoy.validate_weight_summary after_adverse)
     = [cd_weight_summary]
  /\ invoked (existing_convoy.validate_weight_summary
                (existing_convoy.invalidate_weight_summary c))
     = [cd_weight_summary]
  /\ valid_view
       (as_lazy (object (existing_convoy.validate_weight_summary
                           after_vehicle)))
     = [false; false; valid (as_lazy c) cd_freight_summary; true; false;
        false]
  /\ weight (object (existing_convoy.validate_weight_summary after_vehicle))
     = update_weight_summary (weight c).
Proof.
  intros after_vehicle after_adverse.
  assert (Hv : forall d, valid (invalidate_vehicle_summary (as_lazy c)) d
                 = valid (as_lazy c) d && negb (names cleared_by_vehicle d)).
  { intros d.
    apply (valid_after_op lazy_ops.op_invalidate_vehicle_summary). }
  assert (Ha : valid (invalidate_adverse_summary (as_lazy c))
                 cd_weight_summary = false).
  { rewrite (valid_after_op lazy_ops.op_invalidate_adverse_summary).
    apply andb_false_r. }
  assert (Hw : valid (as_lazy (existing_convoy.invalidate_weight_summary c))
                 cd_weight_summary = false).
  { transitivity (valid (as_lazy c) cd_weight_summary
                  && negb (Z.testbit 8 (cd_bit cd_weight_summary))).
    - exact (valid_clear (as_lazy c) 8 cd_weight_summary ltac:(lia)).
    - apply andb_false_r. }
  rewrite !validate_weight_summary_run.
  unfold after_vehicle, after_adverse.
  cbn [existing_convoy.set_lazy as_lazy]. rewrite Hv, Ha, Hw.
  change (names cleared_by_vehicle cd_weight_summary) with true.
  rewrite andb_false_r.
  cbn [invoked object fst snd existing_convoy.set_weight
       existing_convoy.set_lazy as_lazy weight].
  unfold valid_view. cbn [map]. rewrite !valid_mark, !Hv.
  cbn. rewrite ?andb_false_r, ?andb_true_r, ?orb_false_r. repeat split.
Qed.

End ExistingConvoyFacts.

(** ** Yards and meters *)

Section YardsFacts.

Import float32e8_accuracy.

(** X15.  For every number of yards from 0 to 2^26, converting to
    meters and back reproduces it, and a speed converted to m/s and read
    as meters is DT_TIME_FACTOR (64) yards per unit of speed, up to 2^26
    yards, whenever the arithmetic of float32e8_t keeps every quotient,
    product and sum to within 2^-30 of its magnitude. *)
Theorem yards_round_trip_in_precision
    (ops : float32e8_ops) (VEHICLE_SPEED_FACTOR yards s : Z) :
  accurate ops ->
  0 < VEHICLE_SPEED_FACTOR ->
  10 * VEHICLE_SPEED_FACTOR < 2 ^ 32 ->
  0 <= yards <= 2 ^ 26 ->
  0 <= s ->
  DT_TIME_FACTOR * s <= 2 ^ 26 ->
  x_to_yards VEHICLE_SPEED_FACTOR (yards_to_x VEHICLE_SPEED_FACTOR yards)
  = yards
  /\ x_to_yards VEHICLE_SPEED_FACTOR (speed_to_v VEHICLE_SPEED_FACTOR s)
     = DT_TIME_FACTOR * s.
Proof.
  intros Hacc Hpos Hfit Hy Hs Hs64.
  unfold x_to_yards, yards_to_x, speed_to_v, m2yards, yards2m, simspeed2ms.
  rewrite (u32_small (10 * VEHICLE_SPEED_FACTOR)) by (unfold is_uint32; lia).
  change (u32 (36 * 1024 * DT_TIME_FACTOR)) with 2359296.
  change (u32 (36 * 1024)) with 36864.
  unfold DT_TIME_FACTOR in *.
  split.
  - rewrite (scaled_trip_nonneg Hacc (10 * VEHICLE_SPEED_FACTOR) 2359296
               2359296 (10 * VEHICLE_SPEED_FACTOR) 1 yards); lia.
  - rewrite (scaled_trip_nonneg Hacc (10 * VEHICLE_SPEED_FACTOR) 36864
               2359296 (10 * VEHICLE_SPEED_FACTOR) 64 s); lia.
Qed.

Lemma yards_round_trip_in_precision_witness :
  x_to_yards (ops := cut_ops) 80 (yards_to_x (ops := cut_ops) 80 4096)
  = 4096.
Proof.
  apply (yards_round_trip_in_precision cut_ops 80 4096 64).
  - exact cut_accurate.
  - lia.
  - lia.
  - lia.
  - lia.
  - unfold DT_TIME_FACTOR. lia.
Defined.

End YardsFacts.

(** ** weg_t: flags, directions, speed limit, statistics *)

Section WegFacts.

Import weg weg_spec.

Lemma testbit_u8 (x i : Z) : 0 <= i < 8 -> Z.testbit (u8 x) i = Z.testbit x i.
Proof. intros Hi. unfold u8. apply Z.mod_pow2_bits_low. lia. Qed.

Lemma testbit_u4 (x i : Z) : 0 <= i < 4 -> Z.testbit (u4 x) i = Z.testbit x i.
Proof. intros Hi. unfold u4. apply Z.mod_pow2_bits_low. lia. Qed.

Lemma flag_bit (w : weg_t) (k : Z) :
  0 <= k -> flag w (2 ^ k) = Z.testbit (flags w) k.
Proof.
  intros Hk. unfold flag. rewrite land_pow2_zero by exact Hk.
  apply negb_involutive.
Qed.

Lemma flag_view_bits (w : weg_t) :
  flag_view w = map (Z.testbit (flags w)) [0; 1; 2; 3; 4; 5; 6; 7].
Proof.
  unfold flag_view, hat_gehweg, is_electrified, has_sign, has_signal,
    has_wayobj, is_crossing, is_diagonal, is_snow. cbn [map].
  rewrite <- (flag_bit w 0), <- (flag_bit w 1), <- (flag_bit w 2),
    <- (flag_bit w 3), <- (flag_bit w 4), <- (flag_bit w 5),
    <- (flag_bit w 6), <- (flag_bit w 7) by lia.
  reflexivity.
Qed.

Lemma flag_view_new_flags (w : weg_t) (f : Z) :
  flag_view (with_flags w (u8 f))
  = map (Z.testbit f) [0; 1; 2; 3; 4; 5; 6; 7].
Proof.
  rewrite flag_view_bits. cbn [with_flags flags map].
  rewrite !testbit_u8 by lia. reflexivity.
Qed.

Lemma u8_range (x : Z) : 0 <= u8 x < 256.
Proof. unfold u8. apply (Z.mod_pos_bound x (2 ^ 8)). lia. Qed.

(** Evaluation of the bits of a constant mask. *)
Ltac mask_bits m :=
  repeat match goal with
         | |- context [Z.testbit m ?k] =>
             let v := eval vm_compute in (Z.testbit m k) in
             change (Z.testbit m k) with v
         end;
  cbn [negb]; rewrite ?orb_false_r, ?orb_true_r, ?andb_true_r, ?andb_false_r.

(** X17.  [set_gehweg] and [set_electrify] write one flag each: the
    matching query returns what was set, the seven other flag queries
    answer as before, [flags] stays a uint8, and neither setter touches
    the statistics, the directions, their mask or the speed limit. *)
Theorem flag_setters_write_one_flag (w : weg_t) (b : bool) :
  flag_view (set_gehweg w b) = b :: tl (flag_view w)
  /\ flag_view (set_electrify w b)
     = hat_gehweg w :: b :: tl (tl (flag_view w))
  /\ 0 <= flags (set_gehweg w b) < 256
  /\ 0 <= flags (set_electrify w b) < 256
  /\ (ribi (set_electrify w b), ribi_maske (set_electrify w b),
      max_speed (set_electrify w b))
     = (ribi w, ribi_maske w, max_speed w)
  /\ (statistics_0 (set_electrify w b), statistics_1 (set_electrify w b))
     = (statistics_0 w, statistics_1 w)
  /\ (ribi (set_gehweg w b), ribi_maske (set_gehweg w b),
      max_speed (set_gehweg w b))
     = (ribi w, ribi_maske w, max_speed w)
  /\ (statistics_0 (set_gehweg w b), statistics_1 (set_gehweg w b))
     = (statistics_0 w, statistics_1 w).
Proof.
  assert (Hg : hat_gehweg w = Z.testbit (flags w) 0).
  { apply (flag_bit w 0). lia. }
  split; [| split; [| split; [| split; [| split; [| split]]]]].
  - unfold set_gehweg. rewrite flag_view_new_flags, flag_view_bits.
    cbn [map tl].
    destruct b.
    + rewrite !Z.lor_spec. mask_bits HAS_SIDEWALK. reflexivity.
    + rewrite !Z.land_spec, !Z.lnot_spec by lia.
      mask_bits HAS_SIDEWALK. reflexivity.
  - rewrite Hg. unfold set_electrify. destruct b;
      rewrite flag_view_new_flags, flag_view_bits; cbn [map tl].
    + rewrite !Z.lor_spec. mask_bits IS_ELECTRIFIED. reflexivity.
    + rewrite !Z.land_spec, !Z.lnot_spec by lia.
      mask_bits IS_ELECTRIFIED. reflexivity.
  - unfold set_gehweg. cbn [with_flags flags]. apply u8_range.
  - unfold set_electrify. destruct b; cbn [with_flags flags];
      apply u8_range.
  - unfold set_electrify. destruct b; reflexivity.
  - unfold set_electrify. destruct b; reflexivity.
  - split; reflexivity.
Qed.

(** X18.  [clear_sign_flag] clears the sign and the signal flag
    together and [clear_crossing] the crossing flag, each leaving every
    other flag as it is. *)
Theorem flag_clears_leave_other_flags (w : weg_t) :
  flag_view (clear_sign_flag w)
  = firstn 2 (flag_view w) ++ [false; false] ++ skipn 4 (flag_view w)
  /\ flag_view (clear_crossing w)
     = firstn 5 (flag_view w) ++ [false] ++ skipn 6 (flag_view w)
  /\ has_sign (clear_sign_flag w) = false
  /\ has_signal (clear_sign_flag w) = false
  /\ is_crossing (clear_crossing w) = false.
Proof.
  assert (Hs : flag_view (clear_sign_flag w)
    = firstn 2 (flag_view w) ++ [false; false] ++ skipn 4 (flag_view w)).
  { unfold clear_sign_flag. rewrite flag_view_new_flags, flag_view_bits.
    cbn [map firstn skipn app].
    rewrite !Z.land_spec, !Z.lnot_spec by lia.
    mask_bits (Z.lor HAS_SIGN HAS_SIGNAL). reflexivity. }
  assert (Hc : flag_view (clear_crossing w)
    = firstn 5 (flag_view w) ++ [false] ++ skipn 6 (flag_view w)).
  { unfold clear_crossing. rewrite flag_view_new_flags, flag_view_bits.
    cbn [map firstn skipn app].
    rewrite !Z.land_spec, !Z.lnot_spec by lia.
    mask_bits HAS_CROSSING. reflexivity. }
  split; [exact Hs | split; [exact Hc |]].
  unfold flag_view in Hs, Hc. cbn [firstn skipn app] in Hs, Hc.
  injection Hs as _ _ Hsign Hsignal _ _ _ _.
  injection Hc as _ _ _ _ _ Hcross _ _.
  auto.
Qed.

Lemma u4_range (x : Z) : 0 <= u4 x < 16.
Proof. unfold u4. apply (Z.mod_pos_bound x (2 ^ 4)). lia. Qed.

(** X19.  The direction bits are a 4-bit set: [ribi_add] adds the low
    four bits of its argument to [ribi], [ribi_rem] removes them,
    [set_ribi] and [set_ribi_maske] store them; bits above the fourth are
    dropped, so both fields stay below 16 whatever is passed. *)
Theorem ribi_updates_are_4bit (w : weg_t) (r : Z) :
  bits4 (get_ribi_unmasked (ribi_add w r))
  = map (fun i => Z.testbit (ribi w) i || Z.testbit r i) [0; 1; 2; 3]
  /\ bits4 (get_ribi_unmasked (ribi_rem w r))
     = map (fun i => Z.testbit (ribi w) i && negb (Z.testbit r i))
         [0; 1; 2; 3]
  /\ bits4 (get_ribi_unmasked (set_ribi w r)) = bits4 r
  /\ bits4 (get_ribi_maske (set_ribi_maske w r)) = bits4 r
  /\ 0 <= get_ribi_unmasked (ribi_add w r) < 16
  /\ 0 <= get_ribi_unmasked (ribi_rem w r) < 16
  /\ 0 <= get_ribi_unmasked (set_ribi w r) < 16
  /\ 0 <= get_ribi_maske (set_ribi_maske w r) < 16.
Proof.
  unfold bits4, get_ribi_unmasked, get_ribi_maske, ribi_add, ribi_rem,
    set_ribi, set_ribi_maske.
  cbn [with_ribi with_ribi_maske ribi ribi_maske map].
  rewrite !testbit_u4 by lia.
  rewrite !Z.lor_spec, !Z.land_spec, !testbit_u8 by lia.
  rewrite !Z.lnot_spec by lia.
  repeat split; apply u4_range.
Qed.

(** X20.  [get_ribi] returns exactly the directions that are not
    masked: bit by bit, a direction is returned when it is stored in
    [ribi] and not set in [ribi_maske], and no bit from the eighth on is
    ever returned.  So the result is a subset of the unmasked directions
    with no bit of the mask in it; masking nothing returns the stored
    directions, masking all four returns none, and the directions 13
    under the mask 6 are returned as 9. *)
Theorem get_ribi_is_unmasked_minus_mask (w : weg_t) (r : Z) :
  (forall i, 0 <= i ->
     Z.testbit (get_ribi w) i
     = (i <? 8)
       && (Z.testbit (get_ribi_unmasked w) i
           && negb (Z.testbit (get_ribi_maske w) i)))
  /\ Z.land (get_ribi w) (get_ribi_maske w) = 0
  /\ Z.land (get_ribi w) (get_ribi_unmasked w) = get_ribi w
  /\ 0 <= get_ribi w < 256
  /\ get_ribi (set_ribi_maske (set_ribi w r) 0) = r mod 16
  /\ get_ribi (set_ribi_maske (set_ribi w r) 15) = 0
  /\ get_ribi (set_ribi_maske (set_ribi w 13) 6) = 9.
Proof.
  assert (Hbits : forall i, 0 <= i ->
    Z.testbit (get_ribi w) i
    = (i <? 8) && (Z.testbit (ribi w) i && negb (Z.testbit (ribi_maske w) i))).
  { intros i Hi. unfold get_ribi, u8.
    destruct (Z.ltb_spec i 8) as [Hlow | Hhigh]; cbn [andb].
    - rewrite Z.mod_pow2_bits_low by lia.
      rewrite Z.land_spec, Z.lnot_spec by lia. reflexivity.
    - apply Z.mod_pow2_bits_high. lia. }
  assert (Hlow : forall x, 0 <= x < 16 -> u8 x = x).
  { intros x Hx. unfold u8. apply Z.mod_small. lia. }
  split; [exact Hbits |].
  split; [| split; [| split; [| split; [| split]]]].
  - apply Z.bits_inj'. intros i Hi.
    rewrite Z.land_spec, Hbits, Z.bits_0 by exact Hi.
    unfold get_ribi_maske.
    destruct (i <? 8), (Z.testbit (ribi w) i), (Z.testbit (ribi_maske w) i);
      reflexivity.
  - apply Z.bits_inj'. intros i Hi.
    rewrite Z.land_spec, Hbits by exact Hi. unfold get_ribi_unmasked.
    destruct (i <? 8), (Z.testbit (ribi w) i), (Z.testbit (ribi_maske w) i);
      reflexivity.
  - unfold get_ribi. apply u8_range.
  - unfold get_ribi, set_ribi_maske, set_ribi.
    cbn [with_ribi with_ribi_maske ribi ribi_maske].
    change (u4 (u8 0)) with 0. change (Z.lnot 0) with (-1).
    rewrite Z.land_m1_r.
    assert (E : u4 (u8 r) = r mod 16).
    { unfold u4, u8. change (2 ^ 8) with (16 * 16). change (2 ^ 4) with 16.
      rewrite Z.rem_mul_r by lia.
      rewrite (Z.mul_comm 16), Z.mod_add by lia. apply Z.mod_mod. lia. }
    rewrite E. apply Hlow. apply Z.mod_pos_bound. lia.
  - unfold get_ribi, set_ribi_maske, set_ribi.
    cbn [with_ribi with_ribi_maske ribi ribi_maske].
    change (u4 (u8 15)) with 15.
    assert (E : Z.land (u4 (u8 r)) (Z.lnot 15) = 0).
    { apply Z.bits_inj'. intros i Hi.
      rewrite Z.land_spec, Z.lnot_spec, Z.bits_0 by exact Hi.
      destruct (Z.lt_ge_cases i 4) as [Hl | Hh].
      - assert (Ht : Z.testbit 15 i = true).
        { assert (Hc : i = 0 \/ i = 1 \/ i = 2 \/ i = 3) by lia.
          destruct Hc as [-> | [-> | [-> | ->]]]; reflexivity. }
        rewrite Ht. apply andb_false_r.
      - unfold u4. rewrite Z.mod_pow2_bits_high by lia. reflexivity. }
    rewrite E. reflexivity.
  - reflexivity.
Qed.

(** X21.  The speed limit is stored in 16 bits: reading back what
    [set_max_speed] stored gives the speed modulo 65536, always in
    0..65535, and the speed itself exactly when it is in that range. *)
Theorem max_speed_is_kept_modulo_65536 (w : weg_t) (s : Z) :
  get_max_speed (set_max_speed w s) = s mod 65536
  /\ 0 <= get_max_speed (set_max_speed w s) < 65536
  /\ (get_max_speed (set_max_speed w s) =? s)
     = (0 <=? s) && (s <? 65536).
Proof.
  unfold get_max_speed, set_max_speed, u16. cbn [max_speed].
  change (2 ^ 16) with 65536.
  pose proof (Z.mod_pos_bound s 65536 ltac:(lia)) as Hb.
  repeat split; try lia.
  destruct (Z.leb_spec 0 s) as [H0 | H0];
    destruct (Z.ltb_spec s 65536) as [H1 | H1]; cbn [andb].
  - apply Z.eqb_eq. apply Z.mod_small. lia.
  - apply Z.eqb_neq. lia.
  - apply Z.eqb_neq. lia.
  - apply Z.eqb_neq. lia.
Qed.

Lemma s16_add_l (x y : Z) : s16 (s16 x + y) = s16 (x + y).
Proof.
  unfold s16.
  replace ((x + 2 ^ 15) mod 2 ^ 16 - 2 ^ 15 + y + 2 ^ 15)
    with ((x + 2 ^ 15) mod 2 ^ 16 + y) by lia.
  rewrite Zplus_mod_idemp_l. f_equal. f_equal. lia.
Qed.

(** X22.  Booking is not visible to [get_statistics], which reads last
    month's values: whatever is booked, every statistic reads as before.
    Bookings accumulate in the current month in any order: two bookings
    commute, and two bookings of the same kind are one booking of the
    sum, in 16-bit arithmetic. *)
Theorem book_leaves_last_month
    (w : weg_t) (a b : Z) (t t' : way_statistics) :
  get_statistics (book w a t) t' = get_statistics w t'
  /\ book (book w a t) b t' = book (book w b t') a t
  /\ book (book w a t) b t = book w (a + b) t
  /\ (flags (book w a t), ribi (book w a t), max_speed (book w a t))
     = (flags w, ribi w, max_speed w).
Proof.
  split; [reflexivity | split; [| split; [| reflexivity]]].
  - unfold book. cbn [statistics_0 statistics_1 ribi ribi_maske flags
                      max_speed].
    f_equal. destruct t, t'; unfold month_add; cbn [goods convois];
      rewrite ?s16_add_l; f_equal; f_equal; lia.
  - unfold book. cbn [statistics_0 statistics_1 ribi ribi_maske flags
                      max_speed].
    f_equal. destruct t; unfold month_add; cbn [goods convois];
      rewrite s16_add_l; f_equal; f_equal; lia.
Qed.

End WegFacts.

(** ** The script interface: what a building enables *)

Section ApiFacts.

Import api_obj_desc.

(** X23.  [building_enables] answers whether the building enables any
    of the asked kinds: a null descriptor and an empty question give
    false, a single bit reads that bit of [get_enabled], and asking for
    several kinds at once is the disjunction of asking for each. *)
Theorem building_enables_any
    (besch : option haus_besch_t) (b : haus_besch_t) (w1 w2 k : Z) :
  building_enables None w1 = false
  /\ building_enables besch 0 = false
  /\ building_enables besch (Z.lor w1 w2)
     = building_enables besch w1 || building_enables besch w2
  /\ building_enables (Some b) (2 ^ Z.abs k)
     = Z.testbit (get_enabled b) (Z.abs k).
Proof.
  split; [reflexivity | split; [| split]].
  - destruct besch as [e |]; [| reflexivity].
    cbn [building_enables]. rewrite Z.land_0_r. reflexivity.
  - destruct besch as [e |]; [| reflexivity].
    cbn [building_enables]. rewrite Z.land_lor_distr_r.
    destruct (Z.eqb_spec (Z.land (get_enabled e) w1) 0) as [E1 | E1];
      destruct (Z.eqb_spec (Z.land (get_enabled e) w2) 0) as [E2 | E2];
      cbn [negb orb];
      destruct (Z.eqb_spec
                  (Z.lor (Z.land (get_enabled e) w1)
                         (Z.land (get_enabled e) w2)) 0) as [E | E];
      try reflexivity; exfalso.
    + apply E. rewrite E1, E2. reflexivity.
    + apply Z.lor_eq_0_iff in E. tauto.
    + apply Z.lor_eq_0_iff in E. tauto.
    + apply Z.lor_eq_0_iff in E. tauto.
  - cbn [building_enables]. rewrite land_pow2_zero by apply Z.abs_nonneg.
    apply negb_involutive.
Qed.

End ApiFacts.
